(** * Task lifecycle of the platform SDK (voxel51/task.py)

    A shallow embedding of the task-management module: the task description
    ([TaskConfig]), the status record with its transitions ([TaskStatus]),
    the lifecycle functions that move data between the worker and the
    platform, and the two failure protocols ([fail_gracefully] and
    [fail_epically]).

    The module talks to collaborators that live outside of it: the clock
    ([etau.get_isotime]), the storage transfer functions of [voxel51.utils]
    and the API client of [voxel51.api].  They are kept abstract in the class
    [Env]; every call made on them is recorded in a trace, and an oracle
    decides which of the calls raise.

    Left out: the calls on [logger], which change nothing the module reads;
    the parsing of a task description ([TaskConfig.__init__],
    [download_task_config], [TaskManager.from_url]), [setup_logging] and
    [get_task_config_url], which rest on [eta.core] and on the process
    environment; and [upload_output], whose target location may be absent. *)

From Stdlib Require Import ZArith Ascii String.
From stdpp Require Import base option list gmap strings.

(** ** Enumerations *)

(** [class TaskState]: the possible states of a task. *)
Inductive TaskState : Type :=
  | SCHEDULED
  | RUNNING
  | COMPLETE
  | FAILED.

(** [class TaskFailureType]: the possible reasons for a failed task. *)
Inductive TaskFailureType : Type :=
  | USER
  | ANALYTIC
  | PLATFORM
  | NONE.

#[global] Instance TaskState_eq_dec : EqDecision TaskState.
Proof. solve_decision. Defined.

#[global] Instance TaskFailureType_eq_dec : EqDecision TaskFailureType.
Proof. solve_decision. Defined.

(** ** Values exchanged with the platform *)

(** Modelled from the spec: [voxu.RemotePathConfig] is declared in
    [voxel51/utils.py], which is not among the sources.  A location spec is a
    signed-access descriptor; it is kept here as the signed URL it wraps
    ([RemotePathConfig.from_signed_url]). *)
Record RemotePathConfig : Type := { signed_url : string }.

#[global] Instance RemotePathConfig_eq_dec : EqDecision RemotePathConfig.
Proof. solve_decision. Defined.

(** A parsed JSON value, as [parse_dict] leaves the task parameters. *)
#[warnings="-register-all"]
Inductive Value : Type :=
  | VNull
  | VBool (b : bool)
  | VNum (n : Z)
  | VStr (s : string)
  | VList (l : list Value)
  | VDict (d : list (string * Value)).

(** Truth value of an optional string, as Python's [if logfile_path:] takes
    it: [None] and the empty string are false. *)
Definition truthy (s : option string) : bool :=
  match s with
  | None => false
  | Some "" => false
  | Some _ => true
  end.

(** ** The world outside the module *)

(** A call made on a collaborator. *)
Inductive Event : Type :=
  | UploadBytes (bytes : string) (path_config : RemotePathConfig)
      (content_type : string)
  | UpdateJobState (job_id : string) (st : TaskState)
      (ft : option TaskFailureType)
  | Download (path_config : RemotePathConfig) (output_dir : option string)
  | Upload (local_path : string) (path_config : RemotePathConfig)
  | PostJobMetadata (job_id : string) (metadata : Value)
  | UploadJobOutputAsData (job_id : string) (output_path : string).

(** The process state the module reads and writes apart from the status:
    the global [_API_CLIENT] (only whether it has been made), how often the
    clock has been read, how many operations that may raise have been
    started, and the calls made so far, oldest first. *)
Record World : Type := {
  api_client : bool;
  ticks : nat;
  calls : nat;
  trace : list Event
}.

(** An exception: raised by the [k]-th fallible operation of a collaborator,
    or a [ValueError] of the standard library. *)
Inductive Exn : Type :=
  | ExternalError (k : nat)
  | ValueError (msg : string).

Inductive Result (A : Type) : Type :=
  | Ok (a : A)
  | Raise (e : Exn).
Arguments Ok {A} a.
Arguments Raise {A} e.

(** What the collaborators answer.  [clock n] is the [n]-th reading of
    [etau.get_isotime()]; [raises k] tells whether the [k]-th fallible
    operation raises; [download_path] is the local path [voxu.download]
    returns; [is_path_config_dict] is [RemotePathConfig.is_path_config_dict]
    and [path_config_of] the constructor [RemotePathConfig(val)];
    [upload_data_id] is the id [upload_job_output_as_data] returns;
    [unquote_escapes] is the percent-decoding [urlparse.unquote] performs on
    a string that holds a [%]. *)
Class Env : Type := {
  clock : nat -> string;
  raises : nat -> bool;
  download_path : RemotePathConfig -> option string -> string;
  is_path_config_dict : Value -> bool;
  path_config_of : Value -> RemotePathConfig;
  upload_data_id : string -> string -> string;
  unquote_escapes : string -> string
}.

(** ** State and exceptions

    A computation runs on a state and ends with a value or an exception; the
    state it reached is kept in both cases, as a Python object keeps the
    mutations made before a [raise]. *)
Definition M (S A : Type) : Type := S -> Result A * S.

#[global] Instance M_ret {S} : MRet (M S) := λ A a s, (Ok a, s).

#[global] Instance M_bind {S} : MBind (M S) := λ A B f m s,
  match m s with
  | (Ok a, s') => f a s'
  | (Raise e, s') => (Raise e, s')
  end.

Definition raise {S A} (e : Exn) : M S A := λ s, (Raise e, s).

(** [try: body / except: handler] with a bare [except], which catches every
    exception. *)
Definition try_except {S A} (body : M S A) (handler : Exn -> M S A) : M S A :=
  λ s, match body s with
       | (Ok a, s') => (Ok a, s')
       | (Raise e, s') => handler e s'
       end.

(** A [for] loop over the items of a dict, in iteration order; [acc] is the
    local variable the body updates. *)
Fixpoint for_items {S A B} (l : list A) (acc : B) (body : B -> A -> M S B)
    : M S B :=
  match l with
  | [] => mret acc
  | x :: l' => acc' ← body acc x; for_items l' acc' body
  end.

(** The body of [if logfile_path:], run when the optional string is true. *)
Definition if_given {S} (o : option string) (body : string -> M S unit)
    : M S unit :=
  match o with
  | Some (String c s) => body (String c s)
  | _ => mret tt
  end.

(** ** Collaborators *)

Section Collaborators.
Context `{Env}.

(** [etau.get_isotime()]: the next reading of the clock. *)
Definition get_isotime : M World string := λ w,
  (Ok (clock (ticks w)),
   {| api_client := api_client w; ticks := S (ticks w);
      calls := calls w; trace := trace w |}).

(** An operation of a collaborator that may raise: it is counted, and
    recorded in the trace when it is a call on the platform or the storage,
    whether it raises or not. *)
Definition fallible (ev : list Event) : M World unit := λ w,
  let w' := {| api_client := api_client w; ticks := ticks w;
               calls := S (calls w); trace := trace w ++ ev |} in
  if raises (calls w) then (Raise (ExternalError (calls w)), w')
  else (Ok tt, w').

Definition call (ev : Event) : M World unit := fallible [ev].

(** [voxa.make_api_client()]. *)
Definition make_api_client : M World unit := fallible [].

Definition set_api_client : M World unit := λ w,
  (Ok tt, {| api_client := true; ticks := ticks w;
             calls := calls w; trace := trace w |}).

(** [_get_api_client()]: the global client, made on first use. *)
Definition _get_api_client : M World unit := λ w,
  if api_client w then (Ok tt, w)
  else (make_api_client ;; set_api_client) w.

(** [voxu.upload_bytes], [voxu.download], [voxu.upload]. *)
Definition upload_bytes (bytes : string) (path_config : RemotePathConfig)
    (content_type : string) : M World unit :=
  call (UploadBytes bytes path_config content_type).

Definition download (path_config : RemotePathConfig)
    (output_dir : option string) : M World string :=
  call (Download path_config output_dir) ;;
  mret (download_path path_config output_dir).

Definition upload (local_path : string) (path_config : RemotePathConfig)
    : M World unit :=
  call (Upload local_path path_config).

(** The methods of the API client the module uses. *)
Definition update_job_state (job_id : string) (st : TaskState)
    (ft : option TaskFailureType) : M World unit :=
  call (UpdateJobState job_id st ft).

Definition post_job_metadata_api (job_id : string) (metadata : Value)
    : M World unit :=
  call (PostJobMetadata job_id metadata).

Definition upload_job_output_as_data (job_id output_path : string)
    : M World string :=
  call (UploadJobOutputAsData job_id output_path) ;;
  mret (upload_data_id job_id output_path).

End Collaborators.

(** ** Task description *)

(** [class TaskConfig]: a request to run a job.  [inputs] and [parameters]
    are dicts; they are kept as their items in iteration order. *)
Module TaskConfig.
Record t : Type := {
  analytic : string;
  version : string;
  job_id : string;
  inputs : list (string * RemotePathConfig);
  parameters : list (string * Value);
  status : RemotePathConfig;
  logfile : RemotePathConfig;
  output : option RemotePathConfig
}.
End TaskConfig.

(** ** Task status *)

(** [class TaskStatusMessage]: a message with its timestamp. *)
Record TaskStatusMessage : Type := { message : string; time : string }.

(** The closure [make_publish_callback] returns, as the two values it
    captures. *)
Record PublishCallback : Type := {
  cb_job_id : string;
  cb_status_path_config : RemotePathConfig
}.

(** [class TaskStatus]. *)
Record TaskStatus : Type := {
  analytic : string;
  version : string;
  state : TaskState;
  failure_type : TaskFailureType;
  start_time : option string;
  complete_time : option string;
  fail_time : option string;
  messages : list TaskStatusMessage;
  inputs : gmap string Value;
  posted_data : gmap string string;
  _publish_callback : PublishCallback
}.

(** [Serializable.to_str], which [TaskStatus] inherits from
    [eta.core.serial]. *)
Class Serializable : Type := { to_str : TaskStatus -> string }.

(** What the lifecycle functions run on: the status object they are handed
    and the process state. *)
Record Store : Type := { task_status : TaskStatus; world : World }.

Definition in_world {A} (c : M World A) : M Store A := λ s,
  let (r, w) := c (world s) in
  (r, {| task_status := task_status s; world := w |}).

Definition get_status : M Store TaskStatus := λ s, (Ok (task_status s), s).

Definition modify_status (f : TaskStatus -> TaskStatus) : M Store unit := λ s,
  (Ok tt, {| task_status := f (task_status s); world := world s |}).

(** Assignments to the attributes of a status. *)
Definition set_state (v : TaskState) (s : TaskStatus) : TaskStatus :=
  {| analytic := analytic s; version := version s; state := v;
     failure_type := failure_type s; start_time := start_time s;
     complete_time := complete_time s; fail_time := fail_time s;
     messages := messages s; inputs := inputs s;
     posted_data := posted_data s;
     _publish_callback := _publish_callback s |}.

Definition set_failure_type (v : TaskFailureType) (s : TaskStatus)
    : TaskStatus :=
  {| analytic := analytic s; version := version s; state := state s;
     failure_type := v; start_time := start_time s;
     complete_time := complete_time s; fail_time := fail_time s;
     messages := messages s; inputs := inputs s;
     posted_data := posted_data s;
     _publish_callback := _publish_callback s |}.

Definition set_start_time (v : option string) (s : TaskStatus) : TaskStatus :=
  {| analytic := analytic s; version := version s; state := state s;
     failure_type := failure_type s; start_time := v;
     complete_time := complete_time s; fail_time := fail_time s;
     messages := messages s; inputs := inputs s;
     posted_data := posted_data s;
     _publish_callback := _publish_callback s |}.

Definition set_complete_time (v : option string) (s : TaskStatus)
    : TaskStatus :=
  {| analytic := analytic s; version := version s; state := state s;
     failure_type := failure_type s; start_time := start_time s;
     complete_time := v; fail_time := fail_time s;
     messages := messages s; inputs := inputs s;
     posted_data := posted_data s;
     _publish_callback := _publish_callback s |}.

Definition set_fail_time (v : option string) (s : TaskStatus) : TaskStatus :=
  {| analytic := analytic s; version := version s; state := state s;
     failure_type := failure_type s; start_time := start_time s;
     complete_time := complete_time s; fail_time := v;
     messages := messages s; inputs := inputs s;
     posted_data := posted_data s;
     _publish_callback := _publish_callback s |}.

Definition set_messages (v : list TaskStatusMessage) (s : TaskStatus)
    : TaskStatus :=
  {| analytic := analytic s; version := version s; state := state s;
     failure_type := failure_type s; start_time := start_time s;
     complete_time := complete_time s; fail_time := fail_time s;
     messages := v; inputs := inputs s;
     posted_data := posted_data s;
     _publish_callback := _publish_callback s |}.

Definition set_inputs (v : gmap string Value) (s : TaskStatus) : TaskStatus :=
  {| analytic := analytic s; version := version s; state := state s;
     failure_type := failure_type s; start_time := start_time s;
     complete_time := complete_time s; fail_time := fail_time s;
     messages := messages s; inputs := v;
     posted_data := posted_data s;
     _publish_callback := _publish_callback s |}.

Definition set_posted_data (v : gmap string string) (s : TaskStatus)
    : TaskStatus :=
  {| analytic := analytic s; version := version s; state := state s;
     failure_type := failure_type s; start_time := start_time s;
     complete_time := complete_time s; fail_time := fail_time s;
     messages := messages s; inputs := inputs s;
     posted_data := v;
     _publish_callback := _publish_callback s |}.

(** [make_publish_callback(job_id, status_path_config)]. *)
Definition make_publish_callback (job_id : string)
    (status_path_config : RemotePathConfig) : PublishCallback :=
  {| cb_job_id := job_id; cb_status_path_config := status_path_config |}.

(** [TaskStatus.__init__(task_config)]. *)
Definition TaskStatus__init__ (task_config : TaskConfig.t) : TaskStatus :=
  {| analytic := TaskConfig.analytic task_config;
     version := TaskConfig.version task_config;
     state := SCHEDULED;
     failure_type := NONE;
     start_time := None;
     complete_time := None;
     fail_time := None;
     messages := [];
     inputs := ∅;
     posted_data := ∅;
     _publish_callback :=
       make_publish_callback (TaskConfig.job_id task_config)
         (TaskConfig.status task_config) |}.

Section Task.
Context `{Env} `{Serializable}.

(** [TaskStatusMessage.__init__(message, time=None)]: [time or
    etau.get_isotime()]. *)
Definition TaskStatusMessage__init__ (msg : string) (t : option string)
    : M World TaskStatusMessage :=
  match t with
  | Some (String c s) => mret {| message := msg; time := String c s |}
  | _ => now ← get_isotime; mret {| message := msg; time := now |}
  end.

(** *** Methods of [TaskStatus] *)

Definition record_input_metadata (name : string) (metadata : Value)
    : M Store unit :=
  modify_status (λ self, set_inputs (<[name := metadata]> (inputs self)) self).

Definition record_posted_data (name data_id : string) : M Store unit :=
  modify_status
    (λ self, set_posted_data (<[name := data_id]> (posted_data self)) self).

Definition add_message (msg : string) : M Store string :=
  m ← in_world (TaskStatusMessage__init__ msg None);
  modify_status (λ self, set_messages (messages self ++ [m]) self) ;;
  mret (time m).

Definition start (msg : string) : M Store unit :=
  t ← add_message msg;
  modify_status (set_start_time (Some t)) ;;
  modify_status (set_state RUNNING).

Definition complete (msg : string) : M Store unit :=
  t ← add_message msg;
  modify_status (set_complete_time (Some t)) ;;
  modify_status (set_state COMPLETE).

Definition fail (ft : TaskFailureType) (msg : string) : M Store unit :=
  t ← add_message msg;
  modify_status (set_fail_time (Some t)) ;;
  modify_status (set_state FAILED) ;;
  modify_status (set_failure_type ft).

(** The body [_publish_status] of the publish callback. *)
Definition _publish_status (job_id : string)
    (status_path_config : RemotePathConfig) (task_status : TaskStatus)
    : M World unit :=
  upload_bytes (to_str task_status) status_path_config "application/json" ;;
  let ft :=
    if decide (state task_status = FAILED)
    then Some (failure_type task_status) else None in
  _get_api_client ;;
  update_job_state job_id (state task_status) ft.

Definition publish : M Store unit :=
  self ← get_status;
  in_world
    (_publish_status (cb_job_id (_publish_callback self))
       (cb_status_path_config (_publish_callback self)) self).

(** The default messages of the transitions. *)
Definition start_msg : string := "Task started".
Definition complete_msg : string := "Task complete".
Definition fail_msg : string := "Task failed".

(** *** Lifecycle functions *)

Definition make_task_status (task_config : TaskConfig.t) : TaskStatus :=
  TaskStatus__init__ task_config.

Definition start_task : M Store unit :=
  start start_msg ;;
  publish.

Definition download_inputs (inputs_dir : string) (task_config : TaskConfig.t)
    : M Store (gmap string string) :=
  for_items (TaskConfig.inputs task_config) (∅ : gmap string string)
    (λ input_paths item,
       let '(name, path_config) := item in
       local_path ← in_world (download path_config (Some inputs_dir));
       let input_paths := <[name := local_path]> input_paths in
       add_message ("Input '" +:+ name +:+ "' downloaded") ;;
       mret input_paths).

Definition parse_parameters (data_params_dir : option string)
    (task_config : TaskConfig.t) : M Store (gmap string Value) :=
  for_items (TaskConfig.parameters task_config) (∅ : gmap string Value)
    (λ parameters item,
       let '(name, val) := item in
       if is_path_config_dict val then
         let path_config := path_config_of val in
         local_path ← in_world (download path_config data_params_dir);
         let parameters := <[name := VStr local_path]> parameters in
         add_message ("Parameter '" +:+ name +:+ "' downloaded") ;;
         mret parameters
       else
         mret (<[name := val]> parameters)).

Definition post_job_metadata (metadata : Value) (task_config : TaskConfig.t)
    : M Store unit :=
  let job_id := TaskConfig.job_id task_config in
  in_world (_get_api_client ;; post_job_metadata_api job_id metadata) ;;
  add_message "Job metadata posted" ;;
  mret tt.

Definition upload_output_as_data (output_name output_path : string)
    (task_config : TaskConfig.t) : M Store unit :=
  data_id ← in_world
    (_get_api_client ;;
     upload_job_output_as_data (TaskConfig.job_id task_config) output_path);
  record_posted_data output_name data_id ;;
  add_message ("Output '" +:+ output_name +:+ "' published as data") ;;
  mret tt.

Definition upload_logfile (logfile_path : string) (task_config : TaskConfig.t)
    : M World unit :=
  upload logfile_path (TaskConfig.logfile task_config).

Definition complete_task (task_config : TaskConfig.t)
    (logfile_path : option string) : M Store unit :=
  complete complete_msg ;;
  publish ;;
  if_given logfile_path
    (λ p, in_world (upload_logfile p task_config)).

Definition fail_gracefully (ft : TaskFailureType) (task_config : TaskConfig.t)
    (logfile_path : option string) : M Store unit :=
  fail ft fail_msg ;;
  try_except publish (λ _, mret tt) ;;
  try_except
    (if_given logfile_path (λ p, in_world (upload_logfile p task_config)))
    (λ _, mret tt).

End Task.

(** ** Paths and URLs

    [fail_epically] reads the job id off the URL of the task description with
    [urlparse.urlparse], [urlparse.unquote], [os.path.dirname] and
    [os.path.basename], all of the standard library.  The two path functions
    are written out for POSIX paths.  What [urlparse] answers depends on the
    interpreter (normalization of the host, checks of bracketed hosts,
    stripping of control characters), so it is taken as it is: the class
    [UrlLib] holds the path it returns for a URL, or the [ValueError] it
    raises. *)

Definition is_slash (c : ascii) : bool := bool_decide (c = "/"%char).

Fixpoint contains (c : ascii) (s : string) : bool :=
  match s with
  | "" => false
  | String d r => bool_decide (d = c) || contains c r
  end.

Fixpoint all_chars (p : ascii -> bool) (s : string) : bool :=
  match s with
  | "" => true
  | String d r => p d && all_chars p r
  end.

(** [s.rstrip('/')]. *)
Fixpoint rstrip_slash (s : string) : string :=
  match s with
  | "" => ""
  | String d r =>
      match rstrip_slash r with
      | "" => if is_slash d then "" else String d ""
      | r' => String d r'
      end
  end.

(** [(p[:i], p[i:])] for [i = p.rfind('/') + 1]. *)
Fixpoint rsplit_slash (p : string) : string * string :=
  match p with
  | "" => ("", "")
  | String d r =>
      let '(head, tail) := rsplit_slash r in
      match head with
      | "" => if is_slash d then (String d "", tail) else ("", String d tail)
      | _ => (String d head, tail)
      end
  end.

(** [posixpath.basename]. *)
Definition basename (p : string) : string := (rsplit_slash p).2.

(** [posixpath.dirname]: the head, without its trailing slashes unless it
    consists of slashes only. *)
Definition dirname (p : string) : string :=
  let head := (rsplit_slash p).1 in
  if all_chars is_slash head then head else rstrip_slash head.

(** [urlparse.urlparse(url).path], or the exception [urlparse] raises. *)
Class UrlLib : Type := { urlparse_path : string -> Result string }.

Section Epic.
Context `{Env} `{UrlLib}.

(** [urlparse.unquote]: a string without [%] is returned as it is. *)
Definition unquote (s : string) : string :=
  if contains "%" s then unquote_escapes s else s.

(** The job id [fail_epically] computes:
    [basename(dirname(unquote(urlparse(url).path)))]. *)
Definition job_id_of_url (task_config_url : string) : Result string :=
  match urlparse_path task_config_url with
  | Raise e => Raise e
  | Ok p => Ok (basename (dirname (unquote p)))
  end.

Definition lift_result {S A} (r : Result A) : M S A := λ s, (r, s).

Definition fail_epically (task_config_url : string) : M World unit :=
  job_id ← lift_result (job_id_of_url task_config_url);
  try_except
    (_get_api_client ;;
     update_job_state job_id FAILED (Some PLATFORM))
    (λ _, mret tt).

End Epic.

(** ** Video metadata and the task manager *)

(** What the module reads of the object [voxu.get_metadata_for_video]
    returns: three attributes and its serialization. *)
Record VideoMetadata : Type := {
  total_frame_count : Value;
  duration : Value;
  size_bytes : Value;
  serialize : Value
}.

(** The metadata [voxu.get_metadata_for_video] finds for a video path. *)
Class VideoTools : Type := { video_metadata : string -> VideoMetadata }.

Section Video.
Context `{Env} `{Serializable} `{VideoTools}.

(** [voxu.get_metadata_for_video(video_path)]: reads a local file, so it may
    raise, and is no call on the platform. *)
Definition get_metadata_for_video (video_path : string)
    : M World VideoMetadata :=
  fallible [] ;;
  mret (video_metadata video_path).

Definition post_job_metadata_for_video (video_path : string)
    (task_config : TaskConfig.t) : M Store unit :=
  vm ← in_world (get_metadata_for_video video_path);
  let metadata :=
    VDict [("frame_count", total_frame_count vm);
           ("duration_seconds", duration vm);
           ("size_bytes", size_bytes vm)] in
  post_job_metadata metadata task_config.

End Video.

(** [class TaskManager]: the manager holds a task description and the status
    object, which is the status of the store its methods run on.  [self] is
    the description. *)
Module TaskManager.
Section Methods.
Context `{Env} `{Serializable} `{VideoTools}.

(** [TaskManager.__init__(task_config, task_status=None)]: the status the
    manager works on. *)
Definition __init__ (task_config : TaskConfig.t)
    (task_status : option TaskStatus) : TaskConfig.t * TaskStatus :=
  (task_config,
   match task_status with
   | Some st => st
   | None => make_task_status task_config
   end).

Definition start (self : TaskConfig.t) : M Store unit := start_task.

Definition download_inputs (self : TaskConfig.t) (inputs_dir : string)
    : M Store (gmap string string) :=
  download_inputs inputs_dir self.

Definition parse_parameters (self : TaskConfig.t)
    (data_params_dir : option string) : M Store (gmap string Value) :=
  parse_parameters data_params_dir self.

(** [record_input_metadata(name, video_path=None, metadata=None)]; an
    absent [metadata] is [VNull]. *)
Definition record_input_metadata (self : TaskConfig.t) (name : string)
    (video_path : option string) (metadata : Value) : M Store unit :=
  metadata ←
    match video_path with
    | Some (String c p) =>
        vm ← in_world (get_metadata_for_video (String c p));
        mret (serialize vm)
    | _ => mret metadata
    end;
  record_input_metadata name metadata.

Definition post_job_metadata (self : TaskConfig.t) (video_path : string)
    : M Store unit :=
  post_job_metadata_for_video video_path self.

Definition add_status_message (self : TaskConfig.t) (msg : string)
    : M Store unit :=
  add_message msg ;;
  mret tt.

Definition publish_status (self : TaskConfig.t) : M Store unit := publish.

Definition upload_output_as_data (self : TaskConfig.t)
    (name output_path : string) : M Store unit :=
  upload_output_as_data name output_path self.

Definition complete (self : TaskConfig.t) (logfile_path : option string)
    : M Store unit :=
  complete_task self logfile_path.

Definition fail_gracefully (self : TaskConfig.t) (ft : TaskFailureType)
    (logfile_path : option string) : M Store unit :=
  fail_gracefully ft self logfile_path.

End Methods.
End TaskManager.

(** A transition of the status, as a caller may request it. *)
Inductive Transition : Type :=
  | Start (msg : string)
  | Complete (msg : string)
  | Fail (ft : TaskFailureType) (msg : string).

(** ** A reference environment, for running the functions *)

Module Demo.
(** A clock that advances by a second per reading, up to nine seconds. *)
Definition second_stamp (d : nat) : string :=
  "2019-01-01T00:00:0" +:+ String (ascii_of_nat (48 + d)) "Z".

Definition stamp (n : nat) : string := second_stamp (n `min` 9).

(** Timestamps of one format compare as strings. *)
Definition not_before (a b : string) : Prop := String.leb b a = true.

Definition local_path (pc : RemotePathConfig) (dir : option string)
    : string :=
  default "" dir +:+ "/" +:+ basename (signed_url pc).

Definition is_spec (v : Value) : bool :=
  match v with
  | VDict [("signed-url", VStr _)] => true
  | _ => false
  end.

Definition spec_of (v : Value) : RemotePathConfig :=
  match v with
  | VDict [("signed-url", VStr u)] => {| signed_url := u |}
  | _ => {| signed_url := "" |}
  end.

(** An environment in which the operations listed in [bad] raise. *)
Definition env (bad : list nat) : Env :=
  {| clock := stamp;
     raises := λ k, bool_decide (k ∈ bad);
     download_path := local_path;
     is_path_config_dict := is_spec;
     path_config_of := spec_of;
     upload_data_id := λ job _, job +:+ "-data";
     unquote_escapes := λ s, s |}.

(** The environment in which nothing raises. *)
Definition reliable_env : Env := env [].

Definition ser : Serializable :=
  {| to_str := λ s,
       match state s with
       | SCHEDULED => "SCHEDULED"
       | RUNNING => "RUNNING"
       | COMPLETE => "COMPLETE"
       | FAILED => "FAILED"
       end |}.

(** What the interpreter's [urlparse] answers on the URLs of the runs.  This
    is a record of answers and no model of [urlparse]: a URL that is not
    listed gets a [ValueError], and no run relies on that. *)
Definition urlparse_answers : list (string * Result string) :=
  [("https://storage.example.com/projects/job-123/status.json?sig=abc",
    Ok "/projects/job-123/status.json");
   ("https://[storage.example.com/projects/job-123/status.json?sig=abc",
    Raise (ValueError "Invalid IPv6 URL"));
   ("https://host/status.json", Ok "/status.json")].

Fixpoint answer_of (table : list (string * Result string)) (url : string)
    : Result string :=
  match table with
  | [] => Raise (ValueError "no recorded answer")
  | (u, r) :: table' => if String.eqb u url then r else answer_of table' url
  end.

Definition urllib : UrlLib :=
  {| urlparse_path := answer_of urlparse_answers |}.

Definition world0 : World :=
  {| api_client := false; ticks := 0; calls := 0; trace := [] |}.

Definition loc (u : string) : RemotePathConfig := {| signed_url := u |}.

Definition config : TaskConfig.t :=
  {| TaskConfig.analytic := "detector";
     TaskConfig.version := "1.0";
     TaskConfig.job_id := "job-123";
     TaskConfig.inputs :=
       [("video", loc "https://s/in/a.mp4");
        ("mask", loc "https://s/in/m.png")];
     TaskConfig.parameters :=
       [("a", VNum 5);
        ("b", VDict [("signed-url", VStr "https://s/p/b.json")])];
     TaskConfig.status := loc "https://s/job-123/status.json";
     TaskConfig.logfile := loc "https://s/job-123/log.txt";
     TaskConfig.output := None |}.

Definition store0 : Store :=
  {| task_status := TaskStatus__init__ config; world := world0 |}.
End Demo.

(** A description whose parameters are all literals, and without inputs. *)
Module Samples.
Definition literal_config : TaskConfig.t :=
  {| TaskConfig.analytic := "detector";
     TaskConfig.version := "1.0";
     TaskConfig.job_id := "job-7";
     TaskConfig.inputs := [];
     TaskConfig.parameters := [("a", VNum 5); ("threshold", VStr "0.5")];
     TaskConfig.status := Demo.loc "https://s/job-7/status.json";
     TaskConfig.logfile := Demo.loc "https://s/job-7/log.txt";
     TaskConfig.output := None |}.

Definition literal_store : Store :=
  {| task_status := TaskStatus__init__ literal_config;
     world := Demo.world0 |}.
End Samples.

(** ** Vocabulary of the properties *)

(** The attributes a transition must leave alone, apart from the timestamps:
    the recorded metadata, the posted data, and what the constructor
    copied or bound. *)
Definition same_records (a b : TaskStatus) : Prop :=
  inputs b = inputs a ∧ posted_data b = posted_data a ∧
  analytic b = analytic a ∧ version b = version a ∧
  _publish_callback b = _publish_callback a.

(** The dict a loop of assignments [d[k] = v] leaves, from [acc]. *)
Definition assign_all {V} (items : list (string * V)) (acc : gmap string V)
    : gmap string V :=
  foldl (λ d item, <[item.1 := item.2]> d) acc items.

(** The progress messages of the downloads. *)
Definition input_message (name : string) : string :=
  "Input '" +:+ name +:+ "' downloaded".

Definition parameter_message (name : string) : string :=
  "Parameter '" +:+ name +:+ "' downloaded".

Section Expected.
Context `{Env} `{Serializable}.

(** The collaborators are reliable from now on: no operation started in
    this world or later raises. *)
Definition reliable (w : World) : Prop :=
  ∀ k : nat, (calls w ≤ k)%nat → raises k = false.

(** The write of the serialized status to the location bound at
    construction. *)
Definition status_document (st : TaskStatus) : Event :=
  UploadBytes (to_str st) (cb_status_path_config (_publish_callback st))
    "application/json".

(** The failure type a job-state report carries: that of the status when it
    is FAILED, none otherwise. *)
Definition reported_failure_type (st : TaskStatus) : option TaskFailureType :=
  match state st with
  | FAILED => Some (failure_type st)
  | _ => None
  end.

(** The report of the state to the platform, under the job id bound at
    construction. *)
Definition job_state_report (st : TaskStatus) : Event :=
  UpdateJobState (cb_job_id (_publish_callback st)) (state st)
    (reported_failure_type st).

(** [publish] gets as far as the report when the write of the document does
    not raise and the API client exists or can be made. *)
Definition publish_reaches_report (w : World) : bool :=
  negb (raises (calls w)) && (api_client w || negb (raises (S (calls w)))).

(** The upload of the logfile, when a path is given. *)
Definition logfile_upload (logfile_path : option string)
    (task_config : TaskConfig.t) : list Event :=
  match logfile_path with
  | Some p =>
      if truthy logfile_path then [Upload p (TaskConfig.logfile task_config)]
      else []
  | None => []
  end.

(** Messages with the given texts, stamped with the clock readings from
    [t0] on. *)
Definition stamped (t0 : nat) (texts : list string) : list TaskStatusMessage :=
  imap (λ i text, {| message := text; time := clock (t0 + i) |}) texts.

(** What [parse_parameters] yields for a parameter value: the local path of
    the download for a location spec, the value itself otherwise. *)
Definition parsed_value (data_params_dir : option string) (val : Value)
    : Value :=
  if is_path_config_dict val
  then VStr (download_path (path_config_of val) data_params_dir)
  else val.

(** The parameters that are location specs, in iteration order. *)
Definition data_parameters (items : list (string * Value))
    : list (string * Value) :=
  filter (λ item, is_path_config_dict item.2 = true) items.

(** The state a status is in after further messages were appended. *)
Definition with_more_messages (more : list TaskStatusMessage)
    (st : TaskStatus) : TaskStatus :=
  set_messages (messages st ++ more) st.

(** The world after [n] more clock readings and the given calls, one
    fallible operation each. *)
Definition after_calls (n : nat) (evs : list Event) (w : World) : World :=
  {| api_client := api_client w; ticks := ticks w + n;
     calls := calls w + length evs; trace := trace w ++ evs |}.

End Expected.

Section Sequences.
Context `{Env} `{Serializable}.

Definition apply_transition (t : Transition) : M Store unit :=
  match t with
  | Start msg => start msg
  | Complete msg => complete msg
  | Fail ft msg => fail ft msg
  end.

(** The transitions of a list, requested one after the other. *)
Definition run_transitions (l : list Transition) : M Store unit :=
  for_items l tt (λ _ t, apply_transition t).

Definition transition_state (t : Transition) : TaskState :=
  match t with
  | Start _ => RUNNING
  | Complete _ => COMPLETE
  | Fail _ _ => FAILED
  end.

Definition transition_message (t : Transition) : string :=
  match t with
  | Start msg | Complete msg | Fail _ msg => msg
  end.

(** The state after a list of transitions: that of the last one. *)
Definition final_state (old : TaskState) (l : list Transition) : TaskState :=
  foldl (λ _ t, transition_state t) old l.

(** The failure type after a list of transitions: that of the last [Fail]. *)
Definition final_failure_type (old : TaskFailureType) (l : list Transition)
    : TaskFailureType :=
  foldl (λ ft t, match t with Fail ft' _ => ft' | _ => ft end) old l.

(** The time attribute a transition assigns. *)
Definition transition_time (t : Transition) (st : TaskStatus)
    : option string :=
  match t with
  | Start _ => start_time st
  | Complete _ => complete_time st
  | Fail _ _ => fail_time st
  end.

(** A call on the API client returns: the client exists or can be made, and
    the call itself does not raise. *)
Definition api_call_returns (w : World) : bool :=
  (api_client w || negb (raises (calls w)))
  && negb (raises (if api_client w then calls w else S (calls w))).

(** [s'] continues [s]: the messages and the trace of calls have only been
    appended to, each new message took one reading of the clock, the API
    client has not been dropped, and what the constructor copied or bound
    is as it was. *)
Definition continues (s s' : Store) : Prop :=
  messages (task_status s) `prefix_of` messages (task_status s') ∧
  trace (world s) `prefix_of` trace (world s') ∧
  (length (messages (task_status s')) + ticks (world s) =
   length (messages (task_status s)) + ticks (world s'))%nat ∧
  (calls (world s) ≤ calls (world s'))%nat ∧
  (api_client (world s) = true → api_client (world s') = true) ∧
  analytic (task_status s') = analytic (task_status s) ∧
  version (task_status s') = version (task_status s) ∧
  _publish_callback (task_status s') = _publish_callback (task_status s).

(** A computation on the store after which the store continues the one it
    started from, whether it returns or raises. *)
Definition steady {A} (c : M Store A) : Prop :=
  ∀ s : Store, continues s (c s).2.

(** The same for a computation on the process state alone, which reads no
    clock. *)
Definition quiet {A} (c : M World A) : Prop :=
  ∀ w : World,
    trace w `prefix_of` trace (c w).2 ∧
    ticks (c w).2 = ticks w ∧
    (calls w ≤ calls (c w).2)%nat ∧
    (api_client w = true → api_client (c w).2 = true).

End Sequences.

(** * Properties *)

(** Unfolding of the monad's operations. *)
Ltac run :=
  repeat (unfold mbind, M_bind, mret, M_ret, try_except, if_given, in_world,
            get_status, modify_status, raise, lift_result; simpl).

Section Properties.
Context `{Env} `{Serializable} `{UrlLib}.

(** ** The status record and its transitions *)

(** [add_message] appends one message stamped with the next clock reading
    and returns that reading. *)
Lemma add_message_run (msg : string) (s : Store) :
  add_message msg s =
    (Ok (clock (ticks (world s))),
     {| task_status :=
          set_messages
            (messages (task_status s) ++
               [{| message := msg; time := clock (ticks (world s)) |}])
            (task_status s);
        world := {| api_client := api_client (world s);
                    ticks := S (ticks (world s));
                    calls := calls (world s);
                    trace := trace (world s) |} |}).
Proof. reflexivity. Qed.

(** C6: the status constructed from a task description is SCHEDULED with
    failure type NONE, has no timestamp, no message, no input metadata and
    no posted data, and carries the analytic and version of the
    description. *)
Theorem TaskStatus_init_fresh (task_config : TaskConfig.t) :
  let s := TaskStatus__init__ task_config in
  state s = SCHEDULED ∧ failure_type s = NONE ∧
  start_time s = None ∧ complete_time s = None ∧ fail_time s = None ∧
  messages s = [] ∧ inputs s = ∅ ∧ posted_data s = ∅ ∧
  analytic s = TaskConfig.analytic task_config ∧
  version s = TaskConfig.version task_config.
Proof. repeat split. Qed.

(** C4: whatever the state and the messages recorded so far, [fail] returns
    with the status FAILED, the given failure type, one message appended,
    and [fail_time] equal to the timestamp of that message. *)
Theorem fail_marks_failed (ft : TaskFailureType) (msg : string) (s : Store) :
  ∃ m : TaskStatusMessage,
    let '(r, s') := fail ft msg s in
    r = Ok tt ∧
    state (task_status s') = FAILED ∧
    failure_type (task_status s') = ft ∧
    messages (task_status s') = messages (task_status s) ++ [m] ∧
    message m = msg ∧
    fail_time (task_status s') = Some (time m).
Proof.
  exists {| message := msg; time := clock (ticks (world s)) |}.
  unfold fail. run. repeat split.
Qed.

(** C5: on a fresh status, [start] followed by [complete] returns with the
    state COMPLETE, exactly two messages, [start_time] the timestamp of the
    first and [complete_time] the timestamp of the second; the second
    timestamp is not before the first under every comparison of timestamps
    for which the clock never goes back. *)
Theorem start_then_complete (task_config : TaskConfig.t) (w : World)
    (msg1 msg2 : string) (not_before : relation string)
    (Hclock : ∀ i j : nat, (i ≤ j)%nat → not_before (clock j) (clock i)) :
  ∃ m1 m2 : TaskStatusMessage,
    let s0 := {| task_status := TaskStatus__init__ task_config; world := w |} in
    let '(r, s) := (start msg1 ;; complete msg2) s0 in
    r = Ok tt ∧
    state (task_status s) = COMPLETE ∧
    messages (task_status s) = [m1; m2] ∧
    message m1 = msg1 ∧ message m2 = msg2 ∧
    start_time (task_status s) = Some (time m1) ∧
    complete_time (task_status s) = Some (time m2) ∧
    not_before (time m2) (time m1).
Proof.
  exists {| message := msg1; time := clock (ticks w) |},
         {| message := msg2; time := clock (S (ticks w)) |}.
  unfold start, complete. run. repeat split.
  apply Hclock. lia.
Qed.

(** C10: each of [start], [complete] and [fail] appends exactly one message
    after the messages already recorded, and leaves the timestamps of the
    other two transitions, the input metadata and the posted data as they
    were, in whatever state it is called. *)
Theorem transitions_frame (ft : TaskFailureType) (msg : string) (s : Store) :
  let old := task_status s in
  (∃ m, let '(r, s') := start msg s in
        let new := task_status s' in
        r = Ok tt ∧ messages new = messages old ++ [m] ∧
        start_time new = Some (time m) ∧
        complete_time new = complete_time old ∧
        fail_time new = fail_time old ∧ same_records old new) ∧
  (∃ m, let '(r, s') := complete msg s in
        let new := task_status s' in
        r = Ok tt ∧ messages new = messages old ++ [m] ∧
        complete_time new = Some (time m) ∧
        start_time new = start_time old ∧
        fail_time new = fail_time old ∧ same_records old new) ∧
  (∃ m, let '(r, s') := fail ft msg s in
        let new := task_status s' in
        r = Ok tt ∧ messages new = messages old ++ [m] ∧
        fail_time new = Some (time m) ∧
        start_time new = start_time old ∧
        complete_time new = complete_time old ∧ same_records old new).
Proof.
  repeat split;
    exists {| message := msg; time := clock (ticks (world s)) |};
    unfold start, complete, fail, same_records; run; repeat split.
Qed.

(** ** Publishing *)

(** [publish] leaves the status as it is. *)
Lemma publish_status (s : Store) :
  task_status (publish s).2 = task_status s.
Proof.
  unfold publish, _publish_status, _get_api_client, upload_bytes,
    update_job_state, make_api_client, set_api_client, call, fallible.
  run. destruct (raises (calls (world s))); simpl; [done|].
  destruct (api_client (world s)); simpl.
  - destruct (raises _); done.
  - run. destruct (raises (S _)); simpl; [done|]. destruct (raises _); done.
Qed.

Lemma reported_failure_type_decide (st : TaskStatus) :
  (if decide (state st = FAILED) then Some (failure_type st) else None)
  = reported_failure_type st.
Proof. unfold reported_failure_type. by destruct (state st). Qed.

(** The calls [publish] makes, whether they raise or not: the document
    first, and then the report if it is reached. *)
Lemma publish_trace (s : Store) :
  trace (world (publish s).2) =
    trace (world s) ++
      status_document (task_status s) ::
      (if publish_reaches_report (world s)
       then [job_state_report (task_status s)] else []).
Proof.
  unfold publish, _publish_status, _get_api_client, upload_bytes,
    update_job_state, make_api_client, set_api_client, call, fallible,
    publish_reaches_report, status_document, job_state_report.
  run. rewrite reported_failure_type_decide.
  destruct (raises (calls (world s))); simpl; [done|].
  destruct (api_client (world s)); simpl.
  - destruct (raises _); simpl; by rewrite <- app_assoc.
  - run. destruct (raises (S _)); simpl; [by rewrite app_nil_r|].
    rewrite app_nil_r. destruct (raises _); simpl; by rewrite <- app_assoc.
Qed.

(** [publish] returns when the collaborators are reliable. *)
Lemma publish_returns (s : Store) :
  reliable (world s) → (publish s).1 = Ok tt.
Proof.
  intros Hrel.
  unfold publish, _publish_status, _get_api_client, upload_bytes,
    update_job_state, make_api_client, set_api_client, call, fallible.
  run. rewrite (Hrel (calls (world s))) by lia. simpl.
  destruct (api_client (world s)); simpl.
  - by rewrite (Hrel (S (calls (world s)))) by lia.
  - run. rewrite (Hrel (S (calls (world s)))) by lia. simpl.
    by rewrite (Hrel (S (S (calls (world s))))) by lia.
Qed.

(** C3: a status keeps the publish binding its constructor made from the
    task description.  In every state of such a status, [publish] on
    reliable collaborators returns after exactly two calls: first the write
    of the serialized status to the status location of the description, then
    [update_job_state] with the job id of the description and the current
    state; the failure type passed is that of the status when the state is
    FAILED and absent otherwise.  The status is not changed. *)
Theorem publish_two_effects (task_config : TaskConfig.t) (s : Store)
    (Hbound : _publish_callback (task_status s)
              = _publish_callback (TaskStatus__init__ task_config))
    (Hrel : reliable (world s)) :
  let st := task_status s in
  let '(r, s') := publish s in
  r = Ok tt ∧
  task_status s' = st ∧
  trace (world s') =
    trace (world s) ++
      [UploadBytes (to_str st) (TaskConfig.status task_config)
         "application/json";
       UpdateJobState (TaskConfig.job_id task_config) (state st)
         (if decide (state st = FAILED) then Some (failure_type st)
          else None)].
Proof.
  pose proof (publish_returns s Hrel) as Hr.
  pose proof (publish_status s) as Hs.
  pose proof (publish_trace s) as Ht.
  destruct (publish s) as [r s']. simpl in *.
  repeat split; [done..|].
  rewrite Ht. unfold publish_reaches_report.
  rewrite (Hrel (calls (world s))) by lia.
  rewrite (Hrel (S (calls (world s)))) by lia.
  rewrite orb_true_r. unfold status_document, job_state_report.
  rewrite Hbound. simpl.
  by rewrite reported_failure_type_decide.
Qed.

(** ** Completion and graceful failure *)

Lemma publish_world_eq (w1 w2 : World) :
  calls w1 = calls w2 → api_client w1 = api_client w2 →
  publish_reaches_report w1 = publish_reaches_report w2.
Proof. unfold publish_reaches_report. by intros -> ->. Qed.

(** The logfile upload of the two wind-up functions: nothing happens without
    a path; with one, the upload is attempted and its exception, if any, is
    the result. *)
Lemma if_given_upload_logfile (task_config : TaskConfig.t)
    (logfile_path : option string) (s : Store) :
  if_given logfile_path (λ p, in_world (upload_logfile p task_config)) s =
    (if truthy logfile_path && raises (calls (world s))
     then Raise (ExternalError (calls (world s))) else Ok tt,
     {| task_status := task_status s;
        world :=
          if truthy logfile_path then
            {| api_client := api_client (world s); ticks := ticks (world s);
               calls := S (calls (world s));
               trace := trace (world s) ++
                          logfile_upload logfile_path task_config |}
          else world s |}).
Proof.
  destruct s as [st w].
  destruct logfile_path as [[|c p]|]; simpl; try done.
  unfold in_world, upload_logfile, upload, call, fallible. simpl.
  by destruct (raises (calls w)).
Qed.

(** C1: [fail_gracefully] always returns without an exception.  It leaves
    the status FAILED with the given failure type; the first call it makes
    is the write of that FAILED status, followed by the job-state report
    when publishing gets that far; and the upload of the logfile is
    attempted whenever a path is given, also when publishing raised. *)
Theorem fail_gracefully_contained (ft : TaskFailureType)
    (task_config : TaskConfig.t) (logfile_path : option string) (s : Store) :
  let '(r, s') := fail_gracefully ft task_config logfile_path s in
  let st := task_status s' in
  r = Ok tt ∧
  task_status s' = task_status (fail ft fail_msg s).2 ∧
  state st = FAILED ∧
  failure_type st = ft ∧
  trace (world s') =
    trace (world s) ++
      status_document st ::
      (if publish_reaches_report (world s) then [job_state_report st]
       else []) ++
      logfile_upload logfile_path task_config.
Proof.
  unfold fail_gracefully.
  assert (Hf : ∃ s1, fail ft fail_msg s = (Ok tt, s1) ∧
             state (task_status s1) = FAILED ∧
             failure_type (task_status s1) = ft ∧
             trace (world s1) = trace (world s) ∧
             calls (world s1) = calls (world s) ∧
             api_client (world s1) = api_client (world s)).
  { eexists. unfold fail. run. repeat split. }
  destruct Hf as (s1 & Hf & Hst & Hft & Htr & Hc & Ha).
  unfold mbind at 1, M_bind at 1. rewrite Hf. simpl.
  unfold mbind, M_bind, try_except.
  pose proof (publish_status s1) as Hs.
  pose proof (publish_trace s1) as Ht.
  rewrite (publish_world_eq _ (world s)) in Ht by done.
  rewrite Htr in Ht.
  destruct (publish s1) as [r2 s2]. simpl in Hs, Ht.
  assert (Hlog : ∀ u : unit,
    (let (r, s') :=
       match if_given logfile_path
               (λ p, in_world (upload_logfile p task_config)) s2 with
       | (Ok a, s') => (Ok a, s')
       | (Raise e, s') => (Ok tt, s')
       end in
     r = Ok tt ∧ task_status s' = task_status s1 ∧
     state (task_status s') = FAILED ∧ failure_type (task_status s') = ft ∧
     trace (world s') =
       trace (world s) ++
         status_document (task_status s') ::
         (if publish_reaches_report (world s)
          then [job_state_report (task_status s')] else []) ++
         logfile_upload logfile_path task_config)).
  { intros _. rewrite if_given_upload_logfile.
    destruct (truthy logfile_path) eqn:Hp; simpl.
    - destruct (raises (calls (world s2))); simpl; rewrite Hs;
        repeat split; try done; rewrite Ht;
        by rewrite <- app_assoc, <- app_comm_cons.
    - rewrite Hs. repeat split; try done. rewrite Ht.
      assert (logfile_upload logfile_path task_config = []) as ->.
      { unfold logfile_upload. destruct logfile_path; [by rewrite Hp|done]. }
      by rewrite app_nil_r. }
  destruct r2 as [[]|e]; simpl; apply (Hlog tt).
Qed.

(** C9: [complete_task] marks the status COMPLETE and publishes it before
    anything else.  An exception of the publication is the result of
    [complete_task], and no logfile is uploaded then.  After a publication
    that returned, the logfile is uploaded when a path is given, and an
    exception of that upload is the result of [complete_task]. *)
Theorem complete_task_surfaces_failures (task_config : TaskConfig.t)
    (logfile_path : option string) (s : Store) :
  let s1 := (complete complete_msg s).2 in
  let '(r2, s2) := publish s1 in
  let '(r, s') := complete_task task_config logfile_path s in
  state (task_status s') = COMPLETE ∧
  task_status s' = task_status s1 ∧
  trace (world s2) =
    trace (world s) ++
      status_document (task_status s1) ::
      (if publish_reaches_report (world s)
       then [job_state_report (task_status s1)] else []) ∧
  match r2 with
  | Raise e => r = Raise e ∧ world s' = world s2
  | Ok _ =>
      trace (world s') =
        trace (world s2) ++ logfile_upload logfile_path task_config ∧
      r = if truthy logfile_path && raises (calls (world s2))
          then Raise (ExternalError (calls (world s2))) else Ok tt
  end.
Proof.
  unfold complete_task.
  assert (Hc : ∃ s1, complete complete_msg s = (Ok tt, s1) ∧
             state (task_status s1) = COMPLETE ∧
             trace (world s1) = trace (world s) ∧
             calls (world s1) = calls (world s) ∧
             api_client (world s1) = api_client (world s)).
  { eexists. unfold complete. run. repeat split. }
  destruct Hc as (s1 & Hc & Hst & Htr & Hcl & Ha).
  rewrite Hc. simpl.
  unfold mbind at 1, M_bind at 1. rewrite Hc.
  unfold mbind, M_bind.
  pose proof (publish_status s1) as Hs.
  pose proof (publish_trace s1) as Ht.
  rewrite (publish_world_eq _ (world s)) in Ht by done.
  rewrite Htr in Ht.
  destruct (publish s1) as [r2 s2]. simpl in Hs, Ht.
  destruct r2 as [[]|e].
  - rewrite if_given_upload_logfile. simpl. rewrite Hs.
    repeat split; try done.
    destruct (truthy logfile_path) eqn:Hp; simpl; [done|].
    assert (logfile_upload logfile_path task_config = []) as ->.
    { unfold logfile_upload. destruct logfile_path; [by rewrite Hp|done]. }
    by rewrite app_nil_r.
  - rewrite Hs. repeat split; done.
Qed.

(** ** Dicts filled by a loop *)

Lemma assign_all_lookup_other {V} (items : list (string * V))
    (acc : gmap string V) (k : string) :
  k ∉ items.*1 → assign_all items acc !! k = acc !! k.
Proof.
  revert acc. induction items as [|[k0 v0] items IH]; intros acc Hk; [done|].
  simpl in *. apply not_elem_of_cons in Hk as [Hne Hk].
  unfold assign_all in *. simpl. rewrite IH by done.
  by rewrite lookup_insert_ne.
Qed.

Lemma assign_all_lookup {V} (items : list (string * V))
    (acc : gmap string V) (k : string) (v : V) :
  NoDup items.*1 → (k, v) ∈ items → assign_all items acc !! k = Some v.
Proof.
  revert acc. induction items as [|[k0 v0] items IH]; intros acc Hnd Hin.
  - by apply elem_of_nil in Hin.
  - simpl in Hnd. apply NoDup_cons in Hnd as [Hk0 Hnd].
    apply elem_of_cons in Hin as [Heq|Hin].
    + injection Heq as -> ->.
      change (assign_all items (<[k0:=v0]> acc) !! k0 = Some v0).
      rewrite assign_all_lookup_other by done. apply lookup_insert_eq.
    + apply (IH (<[k0:=v0]> acc) Hnd Hin).
Qed.

Lemma assign_all_dom {V} (items : list (string * V)) (acc : gmap string V) :
  dom (assign_all items acc) = dom acc ∪ list_to_set items.*1.
Proof.
  revert acc. induction items as [|[k0 v0] items IH]; intros acc.
  - simpl. by rewrite (right_id_L ∅ (∪)).
  - change (dom (assign_all items (<[k0:=v0]> acc)) =
            dom acc ∪ ({[k0]} ∪ list_to_set items.*1)).
    rewrite IH, dom_insert_L, (comm_L (∪) {[k0]} (dom acc)).
    by rewrite (assoc_L (∪)).
Qed.

Lemma reliable_after_calls (n : nat) (evs : list Event) (w : World) :
  reliable w → reliable (after_calls n evs w).
Proof. intros Hrel k Hk. apply Hrel. simpl in Hk. lia. Qed.

Lemma stamped_cons (t0 : nat) (text : string) (texts : list string) :
  stamped t0 (text :: texts) =
    {| message := text; time := clock t0 |} :: stamped (S t0) texts.
Proof.
  unfold stamped. simpl. rewrite Nat.add_0_r. f_equal.
  apply imap_ext. intros i x _. simpl. by rewrite Nat.add_succ_r.
Qed.

Lemma stamped_length (t0 : nat) (texts : list string) :
  length (stamped t0 texts) = length texts.
Proof. unfold stamped. apply length_imap. Qed.

(** ** Downloading the inputs *)

Lemma bind_run {S A B} (m : M S A) (f : A → M S B) (s : S) :
  (m ≫= f) s =
    match m s with
    | (Ok a, s') => f a s'
    | (Raise e, s') => (Raise e, s')
    end.
Proof. reflexivity. Qed.

Lemma with_more_messages_nil (st : TaskStatus) : with_more_messages [] st = st.
Proof.
  destruct st. unfold with_more_messages, set_messages. simpl.
  by rewrite app_nil_r.
Qed.

Lemma with_more_messages_app (a b : list TaskStatusMessage) (st : TaskStatus) :
  with_more_messages b (with_more_messages a st) = with_more_messages (a ++ b) st.
Proof.
  unfold with_more_messages, set_messages. simpl. by rewrite app_assoc.
Qed.

Lemma after_calls_0 (w : World) : after_calls 0 [] w = w.
Proof.
  destruct w. unfold after_calls. simpl.
  by rewrite !Nat.add_0_r, app_nil_r.
Qed.

Lemma after_calls_app (n m : nat) (a b : list Event) (w : World) :
  after_calls m b (after_calls n a w) = after_calls (n + m) (a ++ b) w.
Proof.
  unfold after_calls. simpl.
  by rewrite length_app, !Nat.add_assoc, app_assoc.
Qed.

(** A download that does not raise. *)
Lemma download_run (path_config : RemotePathConfig)
    (output_dir : option string) (s : Store) :
  raises (calls (world s)) = false →
  in_world (download path_config output_dir) s =
    (Ok (download_path path_config output_dir),
     {| task_status := task_status s;
        world := after_calls 0 [Download path_config output_dir] (world s) |}).
Proof.
  intros Hok. unfold in_world, download, call, fallible. run.
  rewrite Hok. unfold after_calls. simpl.
  by rewrite Nat.add_0_r, Nat.add_1_r.
Qed.

(** A message appended to the status. *)
Lemma add_message_more (msg : string) (s : Store) :
  add_message msg s =
    (Ok (clock (ticks (world s))),
     {| task_status := with_more_messages (stamped (ticks (world s)) [msg])
                         (task_status s);
        world := after_calls 1 [] (world s) |}).
Proof.
  rewrite add_message_run. unfold after_calls, stamped. simpl.
  by rewrite !Nat.add_0_r, Nat.add_1_r, app_nil_r.
Qed.

Lemma stamped_app (t0 : nat) (a b : list string) :
  stamped t0 (a ++ b) = stamped t0 a ++ stamped (t0 + length a) b.
Proof.
  unfold stamped. rewrite imap_app. f_equal.
  apply imap_ext. intros i x _. simpl. by rewrite Nat.add_assoc.
Qed.

(** The loop of [download_inputs] on reliable collaborators: one download
    and one message per item, in iteration order. *)
Lemma download_inputs_loop (inputs_dir : string)
    (items : list (string * RemotePathConfig)) (acc : gmap string string)
    (s : Store) :
  reliable (world s) →
  for_items items acc
    (λ input_paths item,
       let '(name, path_config) := item in
       local_path ← in_world (download path_config (Some inputs_dir));
       let input_paths := <[name := local_path]> input_paths in
       add_message ("Input '" +:+ name +:+ "' downloaded") ;;
       mret input_paths) s =
  (Ok (assign_all
         (map (λ item, (item.1, download_path item.2 (Some inputs_dir))) items)
         acc),
   {| task_status :=
        with_more_messages
          (stamped (ticks (world s)) (map input_message items.*1))
          (task_status s);
      world :=
        after_calls (length items)
          (map (λ item, Download item.2 (Some inputs_dir)) items)
          (world s) |}).
Proof.
  revert acc s. induction items as [|[name pc] items IH]; intros acc s Hrel.
  - simpl. unfold stamped. simpl.
    rewrite with_more_messages_nil, after_calls_0. by destruct s.
  - simpl for_items. rewrite bind_run, bind_run.
    rewrite download_run by (apply Hrel; lia).
    rewrite bind_run, add_message_more.
    unfold mret at 1, M_ret at 1.
    rewrite IH by (simpl; repeat apply reliable_after_calls; done).
    simpl task_status. simpl world.
    rewrite with_more_messages_app, !after_calls_app.
    f_equal. f_equal. f_equal.
    change (map input_message ((name, pc) :: items).*1)
      with ([input_message name] ++ map input_message items.*1).
    rewrite stamped_app, !Nat.add_0_r. reflexivity.
Qed.


(** C8: on reliable collaborators and for a description with [n] inputs,
    [download_inputs] returns a dict whose keys are the input names, each
    mapped to the local path of the download of that input into
    [inputs_dir]; it appends [n] messages to the status, one per input and
    named for it, in the iteration order of the inputs, and changes nothing
    else of the status; the only calls it makes are the downloads, so the
    status is not published. *)
Theorem download_inputs_correct (inputs_dir : string)
    (task_config : TaskConfig.t) (s : Store)
    (Hkeys : NoDup (TaskConfig.inputs task_config).*1)
    (Hrel : reliable (world s)) :
  let items := TaskConfig.inputs task_config in
  ∃ (input_paths : gmap string string) (s' : Store),
    download_inputs inputs_dir task_config s = (Ok input_paths, s') ∧
    dom input_paths = list_to_set items.*1 ∧
    (∀ name path_config, (name, path_config) ∈ items →
       input_paths !! name =
         Some (download_path path_config (Some inputs_dir))) ∧
    task_status s' =
      set_messages
        (messages (task_status s) ++
           stamped (ticks (world s)) (map input_message items.*1))
        (task_status s) ∧
    length (messages (task_status s')) =
      (length (messages (task_status s)) + length items)%nat ∧
    trace (world s') =
      trace (world s) ++ map (λ item, Download item.2 (Some inputs_dir)) items.
Proof.
  intros items. unfold download_inputs. fold items.
  rewrite download_inputs_loop by done.
  eexists _, _. split; [reflexivity|]. simpl.
  split; [|split; [|split; [|split]]].
  - rewrite assign_all_dom, dom_empty_L, (left_id_L ∅ (∪)).
    f_equal. rewrite <- list_fmap_compose. done.
  - intros name pc Hin. apply assign_all_lookup.
    + rewrite <- list_fmap_compose. done.
    + apply (list_elem_of_fmap_2
               (λ item, (item.1, download_path item.2 (Some inputs_dir)))
               items (name, pc) Hin).
  - done.
  - rewrite length_app, stamped_length, length_map, length_fmap. done.
  - done.
Qed.

(** ** Parsing the parameters *)

Lemma parsed_value_data (dir : option string) (val : Value) :
  is_path_config_dict val = true →
  parsed_value dir val = VStr (download_path (path_config_of val) dir).
Proof. unfold parsed_value. by intros ->. Qed.

Lemma parsed_value_literal (dir : option string) (val : Value) :
  is_path_config_dict val = false → parsed_value dir val = val.
Proof. unfold parsed_value. by intros ->. Qed.

(** The loop of [parse_parameters] on reliable collaborators: one download
    and one message per location spec, in iteration order, and nothing for
    a literal. *)
Lemma parse_parameters_loop (data_params_dir : option string)
    (items : list (string * Value)) (acc : gmap string Value) (s : Store) :
  reliable (world s) →
  for_items items acc
    (λ parameters item,
       let '(name, val) := item in
       if is_path_config_dict val then
         let path_config := path_config_of val in
         local_path ← in_world (download path_config data_params_dir);
         let parameters := <[name := VStr local_path]> parameters in
         add_message ("Parameter '" +:+ name +:+ "' downloaded") ;;
         mret parameters
       else
         mret (<[name := val]> parameters)) s =
  (Ok (assign_all
         (map (λ item, (item.1, parsed_value data_params_dir item.2)) items)
         acc),
   {| task_status :=
        with_more_messages
          (stamped (ticks (world s))
             (map parameter_message (data_parameters items).*1))
          (task_status s);
      world :=
        after_calls (length (data_parameters items))
          (map (λ item, Download (path_config_of item.2) data_params_dir)
             (data_parameters items))
          (world s) |}).
Proof.
  revert acc s. induction items as [|[name val] items IH]; intros acc s Hrel.
  - simpl. unfold stamped. simpl.
    rewrite with_more_messages_nil, after_calls_0. by destruct s.
  - simpl for_items. rewrite bind_run. unfold data_parameters.
    destruct (is_path_config_dict val) eqn:Hval.
    + rewrite filter_cons_True by done.
      fold (data_parameters items).
      rewrite bind_run, download_run by (apply Hrel; lia).
      rewrite bind_run, add_message_more.
      unfold mret at 1, M_ret at 1.
      rewrite IH by (simpl; repeat apply reliable_after_calls; done).
      simpl task_status. simpl world.
      rewrite with_more_messages_app, !after_calls_app.
      simpl assign_all. rewrite (parsed_value_data _ _ Hval).
      f_equal. f_equal. f_equal.
      change (map parameter_message ((name, val) :: data_parameters items).*1)
        with ([parameter_message name] ++
                map parameter_message (data_parameters items).*1).
      rewrite stamped_app, !Nat.add_0_r. reflexivity.
    + rewrite filter_cons_False by (simpl; congruence).
      fold (data_parameters items).
      unfold mret at 1, M_ret at 1. rewrite IH by done.
      simpl assign_all. by rewrite (parsed_value_literal _ _ Hval).
Qed.

(** C7: on reliable collaborators, [parse_parameters] returns a dict with
    one entry per parameter of the description: a parameter whose value is
    a location spec is mapped to the local path of its download into the
    data directory, every other parameter to its value.  One message is
    appended to the status per location spec, in iteration order, and none
    for a literal; nothing else of the status changes. *)
Theorem parse_parameters_correct (data_params_dir : option string)
    (task_config : TaskConfig.t) (s : Store)
    (Hkeys : NoDup (TaskConfig.parameters task_config).*1)
    (Hrel : reliable (world s)) :
  let items := TaskConfig.parameters task_config in
  ∃ (parameters : gmap string Value) (s' : Store),
    parse_parameters data_params_dir task_config s = (Ok parameters, s') ∧
    dom parameters = list_to_set items.*1 ∧
    (∀ name val, (name, val) ∈ items →
       is_path_config_dict val = true →
       parameters !! name =
         Some (VStr (download_path (path_config_of val) data_params_dir))) ∧
    (∀ name val, (name, val) ∈ items →
       is_path_config_dict val = false →
       parameters !! name = Some val) ∧
    task_status s' =
      set_messages
        (messages (task_status s) ++
           stamped (ticks (world s))
             (map parameter_message (data_parameters items).*1))
        (task_status s) ∧
    trace (world s') =
      trace (world s) ++
        map (λ item, Download (path_config_of item.2) data_params_dir)
          (data_parameters items).
Proof.
  intros items. unfold parse_parameters. fold items.
  rewrite parse_parameters_loop by done.
  eexists _, _. split; [reflexivity|]. simpl.
  assert (Hlook : ∀ name val, (name, val) ∈ items →
            assign_all
              (map (λ item, (item.1, parsed_value data_params_dir item.2))
                 items) ∅ !! name
            = Some (parsed_value data_params_dir val)).
  { intros name val Hin. apply assign_all_lookup.
    - rewrite <- list_fmap_compose. done.
    - apply (list_elem_of_fmap_2
               (λ item, (item.1, parsed_value data_params_dir item.2))
               items (name, val) Hin). }
  split; [|split; [|split; [|split]]].
  - rewrite assign_all_dom, dom_empty_L, (left_id_L ∅ (∪)).
    f_equal. rewrite <- list_fmap_compose. done.
  - intros name val Hin Hval.
    by rewrite (Hlook name val Hin), parsed_value_data.
  - intros name val Hin Hval.
    by rewrite (Hlook name val Hin), parsed_value_literal.
  - done.
  - done.
Qed.


(** ** Paths *)

Lemma append_cons (d : ascii) (a b : string) :
  String d a +:+ b = String d (a +:+ b).
Proof. reflexivity. Qed.

Lemma append_nil (b : string) : "" +:+ b = b.
Proof. reflexivity. Qed.

(** Computation on strings, through the appends. *)
Ltac str_simpl := repeat (progress (simpl; rewrite ?append_cons, ?append_nil)).


Lemma contains_append (c : ascii) (a b : string) :
  contains c (a +:+ b) = contains c a || contains c b.
Proof.
  induction a as [|d a IH]; str_simpl; [done|].
  by rewrite IH, orb_assoc.
Qed.

Lemma rsplit_slash_append (p : string) :
  (rsplit_slash p).1 +:+ (rsplit_slash p).2 = p.
Proof.
  induction p as [|d p IH]; str_simpl; [done|].
  destruct (rsplit_slash p) as [head tail]. simpl in *.
  destruct head as [|e head]; simpl in *.
  - destruct (is_slash d); simpl; by rewrite <- IH.
  - by rewrite <- IH.
Qed.

(** A path without a slash has no head. *)
Lemma rsplit_slash_plain (p : string) :
  contains "/" p = false → rsplit_slash p = ("", p).
Proof.
  induction p as [|d p IH]; str_simpl; [done|].
  intros [Hd Hp]%orb_false_iff. rewrite (IH Hp).
  unfold is_slash. by rewrite Hd.
Qed.

Lemma rsplit_slash_cons (d : ascii) (r : string) :
  rsplit_slash (String d r) =
    let '(head, tail) := rsplit_slash r in
    match head with
    | "" => if is_slash d then (String d "", tail) else ("", String d tail)
    | _ => (String d head, tail)
    end.
Proof. reflexivity. Qed.

(** The last slash of a path separates the head from the final
    component. *)
Lemma rsplit_slash_sep (a t : string) :
  contains "/" t = false →
  rsplit_slash (a +:+ "/" +:+ t) = (a +:+ "/", t).
Proof.
  intros Ht. induction a as [|d a IH].
  - change (rsplit_slash (String "/" t) = ("/", t)).
    by rewrite rsplit_slash_cons, (rsplit_slash_plain t Ht).
  - rewrite (append_cons d a), rsplit_slash_cons, IH.
    destruct a; reflexivity.
Qed.







(** ** Epic failure *)

(** The platform call of [fail_epically]: whatever it does, no exception
    leaves the [try] block, and the only call that can be made is the
    report of the failure. *)
Lemma epic_report_run (job_id : string) (w : World) :
  ∃ w', try_except
          (_get_api_client ;; update_job_state job_id FAILED (Some PLATFORM))
          (λ _, mret tt) w = (Ok tt, w') ∧
        trace w' =
          trace w ++
            (if api_client w || negb (raises (calls w))
             then [UpdateJobState job_id FAILED (Some PLATFORM)] else []).
Proof.
  unfold try_except, _get_api_client, update_job_state, make_api_client,
    set_api_client, call, fallible.
  rewrite bind_run. destruct (api_client w); simpl.
  - destruct (raises (calls w)); unfold mret, M_ret; eauto.
  - rewrite bind_run. destruct (raises (calls w)); simpl.
    + unfold mret, M_ret. eexists. split; [done|]. simpl.
      by rewrite !app_nil_r.
    + unfold mret, M_ret. simpl. rewrite app_nil_r.
      destruct (raises (S (calls w))); eauto.
Qed.


(** An exception of the job-id extraction is not caught: it is the result
    of [fail_epically], and no platform call is made. *)
Lemma fail_epically_extraction_raises (task_config_url : string) (e : Exn)
    (w : World) :
  urlparse_path task_config_url = Raise e →
  fail_epically task_config_url w = (Raise e, w).
Proof.
  intros Hraise. unfold fail_epically, job_id_of_url. by rewrite Hraise.
Qed.

End Properties.

(** * Further properties of the module *)

Section Coverage.
Context `{Env} `{Serializable} `{VideoTools} `{UrlLib}.

(** ** What every lifecycle function keeps *)

Lemma continues_refl (s : Store) : continues s s.
Proof. unfold continues. by split_and!. Qed.

Lemma continues_trans (s1 s2 s3 : Store) :
  continues s1 s2 → continues s2 s3 → continues s1 s3.
Proof.
  intros (Hm & Ht & Hk & Hc & Ha & Hn & Hv & Hp)
         (Hm' & Ht' & Hk' & Hc' & Ha' & Hn' & Hv' & Hp').
  unfold continues. split_and!.
  - by etrans.
  - by etrans.
  - lia.
  - lia.
  - auto.
  - congruence.
  - congruence.
  - congruence.
Qed.

Lemma steady_ret {A} (a : A) : steady (mret a : M Store A).
Proof. intros s. apply continues_refl. Qed.

Lemma steady_bind {A B} (m : M Store A) (f : A → M Store B) :
  steady m → (∀ a, steady (f a)) → steady (m ≫= f).
Proof.
  intros Hm Hf s. rewrite bind_run. specialize (Hm s).
  destruct (m s) as [[a|e] s1]; simpl in *; [|done].
  by apply (continues_trans _ s1), Hf.
Qed.

Lemma steady_try_except {A} (body : M Store A) (handler : Exn → M Store A) :
  steady body → (∀ e, steady (handler e)) → steady (try_except body handler).
Proof.
  intros Hb Hh s. unfold try_except. specialize (Hb s).
  destruct (body s) as [[a|e] s1]; simpl in *; [done|].
  by apply (continues_trans _ s1), Hh.
Qed.

Lemma steady_if_given (o : option string) (body : string → M Store unit) :
  (∀ p, steady (body p)) → steady (if_given o body).
Proof.
  intros Hb. destruct o as [[|c p]|]; simpl; [apply steady_ret|apply Hb|].
  apply steady_ret.
Qed.

Lemma steady_for_items {A B} (l : list A) (acc : B)
    (body : B → A → M Store B) :
  (∀ b a, steady (body b a)) → steady (for_items l acc body).
Proof.
  intros Hb. revert acc. induction l as [|x l IH]; intros acc; simpl.
  - apply steady_ret.
  - apply steady_bind; [apply Hb|]. intros b. apply IH.
Qed.

Lemma quiet_ret {A} (a : A) : quiet (mret a : M World A).
Proof. intros w. by split_and!. Qed.

Lemma quiet_bind {A B} (m : M World A) (f : A → M World B) :
  quiet m → (∀ a, quiet (f a)) → quiet (m ≫= f).
Proof.
  intros Hm Hf w. rewrite bind_run. specialize (Hm w).
  destruct (m w) as [[a|e] w1]; simpl in *; [|done].
  destruct Hm as (Ht & Hk & Hc & Ha).
  destruct (Hf a w1) as (Ht' & Hk' & Hc' & Ha').
  split_and!; [by etrans|congruence|lia|auto].
Qed.

Lemma quiet_fallible (ev : list Event) : quiet (fallible ev).
Proof.
  intros w. unfold fallible.
  destruct (raises (calls w)); simpl;
    (split_and!; [by apply prefix_app_r|done|lia|done]).
Qed.

Lemma quiet_get_api_client : quiet _get_api_client.
Proof.
  intros w. unfold _get_api_client.
  destruct (api_client w) eqn:Hc; simpl; [by split_and!|].
  rewrite bind_run. unfold make_api_client, fallible, set_api_client.
  destruct (raises (calls w)); simpl;
    (split_and!; [by apply prefix_app_r|done|lia|done]).
Qed.

Lemma steady_in_world {A} (c : M World A) : quiet c → steady (in_world c).
Proof.
  intros Hc s. unfold in_world. specialize (Hc (world s)).
  destruct (c (world s)) as [r w]. simpl in *.
  destruct Hc as (Ht & Hk & Hcl & Ha).
  unfold continues. simpl. split_and!; [done|done|lia|lia|done|done|done|done].
Qed.

Lemma steady_add_message (msg : string) : steady (add_message msg).
Proof.
  intros s. rewrite add_message_run. unfold continues. simpl.
  split_and!; [by apply prefix_app_r|done| |lia|done|done|done|done].
  rewrite length_app. simpl. lia.
Qed.

(** An assignment to an attribute other than the messages and what the
    constructor copied or bound. *)
Lemma steady_modify_status (f : TaskStatus → TaskStatus) :
  (∀ st, messages (f st) = messages st ∧ analytic (f st) = analytic st ∧
         version (f st) = version st ∧
         _publish_callback (f st) = _publish_callback st) →
  steady (modify_status f).
Proof.
  intros Hf s. destruct (Hf (task_status s)) as (Hm & Hn & Hv & Hp).
  unfold modify_status, continues. simpl. rewrite Hm.
  by split_and!.
Qed.


(** Steadiness of a computation built from steady parts. *)
Ltac steady_step :=
  first
    [ apply steady_ret | apply steady_add_message
    | apply steady_bind | apply steady_try_except | apply steady_if_given
    | apply steady_for_items | apply steady_in_world
    | apply steady_modify_status; intros ?; by split_and!
    | apply quiet_ret | apply quiet_fallible | apply quiet_get_api_client
    | apply quiet_bind ].

Ltac steady_auto := repeat (steady_step || intros ?).

Lemma steady_start (msg : string) : steady (start msg).
Proof. unfold start. steady_auto. Qed.

Lemma steady_complete (msg : string) : steady (complete msg).
Proof. unfold complete. steady_auto. Qed.

Lemma steady_fail (ft : TaskFailureType) (msg : string) : steady (fail ft msg).
Proof. unfold fail. steady_auto. Qed.

Lemma steady_publish : steady publish.
Proof.
  unfold publish. apply steady_bind; [intros s; apply continues_refl|].
  intros self. unfold _publish_status, upload_bytes, update_job_state, call.
  steady_auto.
Qed.

(** X1: every lifecycle function leaves a store that continues the one it
    was started on, whether it returns or raises: messages and calls are
    only appended, each new message took one reading of the clock, the API
    client is not dropped, and the analytic, the version and the publish
    binding of the status do not change. *)
Theorem lifecycle_functions_steady (task_config : TaskConfig.t) :
  steady start_task ∧
  (∀ msg, steady (add_message msg)) ∧
  steady publish ∧
  (∀ dir, steady (download_inputs dir task_config)) ∧
  (∀ dir, steady (parse_parameters dir task_config)) ∧
  (∀ metadata, steady (post_job_metadata metadata task_config)) ∧
  (∀ path, steady (post_job_metadata_for_video path task_config)) ∧
  (∀ name path, steady (upload_output_as_data name path task_config)) ∧
  (∀ path, steady (complete_task task_config path)) ∧
  (∀ ft path, steady (fail_gracefully ft task_config path)).
Proof.
  assert (Hpost : ∀ metadata, steady (post_job_metadata metadata task_config)).
  { intros metadata. unfold post_job_metadata, post_job_metadata_api, call.
    steady_auto. }
  split_and!.
  - unfold start_task. apply steady_bind; [apply steady_start|].
    intros _. apply steady_publish.
  - apply steady_add_message.
  - apply steady_publish.
  - intros dir. unfold download_inputs. apply steady_for_items.
    intros acc [name pc]. unfold download, call. steady_auto.
  - intros dir. unfold parse_parameters. apply steady_for_items.
    intros acc [name val]. destruct (is_path_config_dict val).
    + unfold download, call. steady_auto.
    + apply steady_ret.
  - apply Hpost.
  - intros path. unfold post_job_metadata_for_video, get_metadata_for_video.
    apply steady_bind; [steady_auto|]. intros vm. apply Hpost.
  - intros name path.
    unfold upload_output_as_data, upload_job_output_as_data, call,
      record_posted_data.
    steady_auto.
  - intros path. unfold complete_task.
    apply steady_bind; [apply steady_complete|]. intros _.
    apply steady_bind; [apply steady_publish|]. intros _.
    unfold upload_logfile, upload, call. steady_auto.
  - intros ft path. unfold fail_gracefully.
    apply steady_bind; [apply steady_fail|]. intros _.
    apply steady_bind.
    { apply steady_try_except; [apply steady_publish|steady_auto]. }
    intros _. unfold upload_logfile, upload, call. steady_auto.
Qed.


(** ** Transitions in any order *)

Lemma apply_transition_run (t : Transition) (s : Store) :
  ∃ s1 : Store,
    apply_transition t s = (Ok tt, s1) ∧
    state (task_status s1) = transition_state t ∧
    failure_type (task_status s1) =
      match t with
      | Fail ft _ => ft
      | _ => failure_type (task_status s)
      end ∧
    messages (task_status s1) =
      messages (task_status s) ++
        [{| message := transition_message t;
            time := clock (ticks (world s)) |}] ∧
    world s1 = after_calls 1 [] (world s) ∧
    transition_time t (task_status s1) = Some (clock (ticks (world s))).
Proof.
  destruct t as [msg|msg|ft msg]; simpl;
    unfold start, complete, fail;
    rewrite bind_run, add_message_more; run;
    eexists; (split; [reflexivity|]); simpl;
    split_and!; try done; by rewrite stamped_cons.
Qed.

(** X2: the transitions check nothing.  Any list of [start], [complete] and
    [fail] requests, in any order and with repetitions, runs to its end
    without an exception and without a call on a collaborator; the state is
    that of the last request, the failure type that of the last [fail], one
    message is logged per request in order, and the time attribute of the
    last request is the timestamp of the last message. *)
Theorem run_transitions_unguarded (l : list Transition) (s : Store) :
  (run_transitions l s).1 = Ok tt ∧
  let s' := (run_transitions l s).2 in
  state (task_status s') = final_state (state (task_status s)) l ∧
  failure_type (task_status s') =
    final_failure_type (failure_type (task_status s)) l ∧
  messages (task_status s') =
    messages (task_status s) ++
      stamped (ticks (world s)) (map transition_message l) ∧
  world s' = after_calls (length l) [] (world s) ∧
  (∀ l' t, l = l' ++ [t] →
     transition_time t (task_status s') =
       Some (clock (ticks (world s) + length l'))).
Proof.
  revert s. induction l as [|t l IH]; intros s.
  - simpl. split_and!; try done.
    + unfold stamped. simpl. by rewrite app_nil_r.
    + by rewrite after_calls_0.
    + intros l' t Hl. by destruct l'.
  - unfold run_transitions. simpl for_items. rewrite bind_run.
    destruct (apply_transition_run t s)
      as (s1 & -> & Hst & Hft & Hmsg & Hw & Htime).
    fold (run_transitions l).
    destruct (IH s1) as (Hr & Hst' & Hft' & Hmsg' & Hw' & Hlast).
    split; [done|]. simpl. split_and!.
    + by rewrite Hst', Hst.
    + rewrite Hft', Hft. by destruct t.
    + rewrite Hmsg', Hmsg, Hw, <- app_assoc. simpl.
      by rewrite stamped_cons, Nat.add_1_r.
    + rewrite Hw', Hw, after_calls_app. done.
    + intros l' t' Hl. destruct l' as [|t0 l'].
      * simpl in Hl. injection Hl as -> ->.
        simpl in *. rewrite Nat.add_0_r. done.
      * simpl in Hl. injection Hl as -> ->.
        rewrite (Hlast l' t' eq_refl), Hw. simpl. f_equal. f_equal. lia.
Qed.


(** ** Publishing, start and completion *)

(** [publish] on reliable collaborators, with the world it leaves. *)
Lemma publish_run_reliable (s : Store) :
  reliable (world s) →
  publish s =
    (Ok tt,
     {| task_status := task_status s;
        world :=
          {| api_client := true;
             ticks := ticks (world s);
             calls := calls (world s) + (if api_client (world s) then 2 else 3);
             trace := trace (world s) ++
                        [status_document (task_status s);
                         job_state_report (task_status s)] |} |}).
Proof.
  intros Hrel.
  unfold publish, _publish_status, _get_api_client, upload_bytes,
    update_job_state, make_api_client, set_api_client, call, fallible,
    status_document, job_state_report.
  run. rewrite reported_failure_type_decide.
  rewrite (Hrel (calls (world s))) by lia. simpl.
  destruct (api_client (world s)) eqn:Hc; simpl.
  - rewrite (Hrel (S (calls (world s)))) by lia.
    rewrite <- app_assoc. simpl. do 3 f_equal. lia.
  - run. rewrite (Hrel (S (calls (world s)))) by lia. simpl.
    rewrite (Hrel (S (S (calls (world s))))) by lia.
    rewrite app_nil_r, <- app_assoc. simpl. do 3 f_equal. lia.
Qed.

(** X3: when the write of the status document raises, [publish] raises that
    exception; it neither makes the API client nor reports the job state,
    and the status is as it was. *)
Theorem publish_write_raises (s : Store)
    (Hraise : raises (calls (world s)) = true) :
  publish s =
    (Raise (ExternalError (calls (world s))),
     {| task_status := task_status s;
        world :=
          {| api_client := api_client (world s);
             ticks := ticks (world s);
             calls := S (calls (world s));
             trace := trace (world s) ++
                        [status_document (task_status s)] |} |}).
Proof.
  unfold publish, _publish_status, upload_bytes, call, fallible,
    status_document.
  run. by rewrite Hraise.
Qed.

(** X4: [_get_api_client] makes the client at most once: asking for it a
    second time changes nothing.  The client exists afterwards exactly when
    the call returned, so a failed attempt is tried again later; no call on
    the platform is made and no clock is read. *)
Theorem get_api_client_cached (w : World) :
  (_get_api_client ;; _get_api_client) w = _get_api_client w ∧
  let '(r, w') := _get_api_client w in
  api_client w' = match r with Ok _ => true | Raise _ => false end ∧
  trace w' = trace w ∧ ticks w' = ticks w.
Proof.
  unfold _get_api_client at 2 3 4.
  rewrite bind_run. unfold _get_api_client at 1.
  destruct (api_client w) eqn:Hc.
  - unfold _get_api_client. rewrite Hc. by split_and!.
  - rewrite bind_run. unfold make_api_client, set_api_client, fallible.
    destruct (raises (calls w)); simpl.
    + split_and!; try done. by rewrite app_nil_r.
    + unfold _get_api_client. simpl. split_and!; try done.
      by rewrite app_nil_r.
Qed.

(** X5: [start_task] marks the status RUNNING with a start time and then
    publishes it; its result is the result of that publication, so an
    exception of it reaches the caller, and the status is RUNNING also
    then.  The document written is that of the RUNNING status, and the
    report, when it is reached, carries no failure type. *)
Theorem start_task_run (s : Store) :
  let s1 := (start start_msg s).2 in
  let '(r, s') := start_task s in
  r = (publish s1).1 ∧
  task_status s' = task_status s1 ∧
  state (task_status s') = RUNNING ∧
  start_time (task_status s') = Some (clock (ticks (world s))) ∧
  messages (task_status s') =
    messages (task_status s) ++ stamped (ticks (world s)) [start_msg] ∧
  trace (world s') =
    trace (world s) ++
      status_document (task_status s') ::
      (if publish_reaches_report (world s)
       then [UpdateJobState (cb_job_id (_publish_callback (task_status s)))
               RUNNING None]
       else []).
Proof.
  unfold start_task.
  assert (Hs : ∃ s1, start start_msg s = (Ok tt, s1) ∧
             state (task_status s1) = RUNNING ∧
             start_time (task_status s1) = Some (clock (ticks (world s))) ∧
             messages (task_status s1) =
               messages (task_status s) ++
                 stamped (ticks (world s)) [start_msg] ∧
             _publish_callback (task_status s1)
               = _publish_callback (task_status s) ∧
             trace (world s1) = trace (world s) ∧
             calls (world s1) = calls (world s) ∧
             api_client (world s1) = api_client (world s)).
  { eexists. unfold start. run. split_and!; try done.
    by rewrite stamped_cons. }
  destruct Hs as (s1 & Hs & Hst & Htime & Hmsg & Hcb & Htr & Hc & Ha).
  rewrite bind_run, Hs. simpl.
  pose proof (publish_status s1) as Hps.
  pose proof (publish_trace s1) as Hpt.
  rewrite (publish_world_eq _ (world s)) in Hpt by done.
  destruct (publish s1) as [r s']. simpl in *.
  rewrite Hps. split_and!; try done.
  rewrite Hpt, Htr. unfold job_state_report, reported_failure_type.
  by rewrite Hst, Hcb.
Qed.

Lemma logfile_upload_none (logfile_path : option string)
    (task_config : TaskConfig.t) :
  truthy logfile_path = false → logfile_upload logfile_path task_config = [].
Proof.
  intros Hp. unfold logfile_upload. destruct logfile_path; [by rewrite Hp|done].
Qed.

Lemma logfile_upload_length (logfile_path : option string)
    (task_config : TaskConfig.t) :
  length (logfile_upload logfile_path task_config) =
    if truthy logfile_path then 1 else 0.
Proof.
  unfold logfile_upload. destruct logfile_path as [p|]; [|done].
  by destruct (truthy (Some p)).
Qed.

(** X6: [start_task] followed by [complete_task], on reliable
    collaborators: both return, the status is COMPLETE with both times set
    and the two messages logged, and the calls made are the two
    publications, RUNNING and then COMPLETE, followed by the upload of the
    logfile when a path is given.  The API client is made once at most. *)
Theorem start_then_complete_task (task_config : TaskConfig.t)
    (logfile_path : option string) (s : Store)
    (Hrel : reliable (world s)) :
  let job := cb_job_id (_publish_callback (task_status s)) in
  let st1 := task_status (start start_msg s).2 in
  ∃ s' : Store,
    (start_task ;; complete_task task_config logfile_path) s = (Ok tt, s') ∧
    state (task_status s') = COMPLETE ∧
    start_time (task_status s') = Some (clock (ticks (world s))) ∧
    complete_time (task_status s') = Some (clock (S (ticks (world s)))) ∧
    messages (task_status s') =
      messages (task_status s) ++
        stamped (ticks (world s)) [start_msg; complete_msg] ∧
    trace (world s') =
      trace (world s) ++
        [status_document st1; UpdateJobState job RUNNING None;
         status_document (task_status s');
         UpdateJobState job COMPLETE None] ++
        logfile_upload logfile_path task_config ∧
    calls (world s') =
      (calls (world s) + (if api_client (world s) then 4 else 5) +
       length (logfile_upload logfile_path task_config))%nat.
Proof.
  intros job st1. unfold start_task, complete_task.
  rewrite bind_run, bind_run.
  assert (Hs : ∃ s1, start start_msg s = (Ok tt, s1) ∧
             world s1 = after_calls 1 [] (world s)).
  { eexists. unfold start. rewrite bind_run, add_message_more. run. done. }
  destruct Hs as (s1 & Hs & Hw1).
  subst st1. rewrite Hs. simpl.
  assert (Hrel1 : reliable (world s1)).
  { rewrite Hw1. by apply reliable_after_calls. }
  rewrite (publish_run_reliable s1 Hrel1).
  set (s2 := {| task_status := task_status s1; world := _ |}).
  rewrite bind_run.
  assert (Hc : ∃ s3, complete complete_msg s2 = (Ok tt, s3) ∧
             task_status s3 =
               set_state COMPLETE
                 (set_complete_time (Some (clock (ticks (world s2))))
                    (with_more_messages
                       (stamped (ticks (world s2)) [complete_msg])
                       (task_status s2))) ∧
             world s3 = after_calls 1 [] (world s2)).
  { eexists. unfold complete. rewrite bind_run, add_message_more. run. done. }
  destruct Hc as (s3 & Hc & Hst3 & Hw3).
  rewrite Hc. rewrite bind_run.
  assert (Hrel3 : reliable (world s3)).
  { rewrite Hw3. apply reliable_after_calls. intros k Hk. apply Hrel1.
    subst s2. simpl in Hk. lia. }
  rewrite (publish_run_reliable s3 Hrel3).
  rewrite if_given_upload_logfile.
  cbn [world calls task_status trace ticks api_client].
  rewrite (Hrel3
             (calls (world s3) + (if api_client (world s3) then 2 else 3))%nat)
    by lia.
  rewrite andb_false_r.
  eexists. split; [reflexivity|].
  cbn [world calls task_status trace ticks api_client].
  assert (Hstart : task_status s1 =
            set_state RUNNING
              (set_start_time (Some (clock (ticks (world s))))
                 (with_more_messages (stamped (ticks (world s)) [start_msg])
                    (task_status s)))).
  { revert Hs. unfold start. rewrite bind_run, add_message_more. run.
    by intros [= <-]. }
  rewrite Hst3. subst s2.
  cbn [world calls task_status trace ticks api_client].
  rewrite Hw3. cbn [world calls task_status trace ticks api_client after_calls].
  rewrite Hw1, Hstart.
  cbn [world calls task_status trace ticks api_client after_calls].
  rewrite !Nat.add_1_r, !app_nil_r, logfile_upload_length.
  split_and!; try done.
  - simpl. by rewrite <- app_assoc, !stamped_cons.
  - unfold job_state_report, reported_failure_type, status_document, job.
    destruct (truthy logfile_path) eqn:Hp; simpl.
    + by rewrite <- !app_assoc.
    + rewrite (logfile_upload_none _ _ Hp). simpl.
      by rewrite ?app_nil_r, <- ?app_assoc.
  - destruct (truthy logfile_path), (api_client (world s)); simpl; lia.
Qed.


(** ** Recorded metadata and calls on the API *)

(** X7: the two recorders of the status behave as dict assignments: what
    was recorded under a name is found under it, a second record under the
    same name replaces the first, records under different names do not
    disturb each other, and nothing but the dict is touched. *)
Theorem records_are_dict_assignments (n1 n2 : string) (m1 m2 : Value)
    (d1 d2 : string) (s : Store) :
  (record_input_metadata n1 m1 ;; record_input_metadata n1 m2) s
    = record_input_metadata n1 m2 s ∧
  (record_posted_data n1 d1 ;; record_posted_data n1 d2) s
    = record_posted_data n1 d2 s ∧
  (let '(r, s') := record_input_metadata n1 m1 s in
   r = Ok tt ∧ world s' = world s ∧
   inputs (task_status s') !! n1 = Some m1 ∧
   task_status s' = set_inputs (inputs (task_status s')) (task_status s)) ∧
  (let '(r, s') := record_posted_data n1 d1 s in
   r = Ok tt ∧ world s' = world s ∧
   posted_data (task_status s') !! n1 = Some d1 ∧
   task_status s' =
     set_posted_data (posted_data (task_status s')) (task_status s)) ∧
  (n1 ≠ n2 →
   (record_input_metadata n1 m1 ;; record_input_metadata n2 m2) s
     = (record_input_metadata n2 m2 ;; record_input_metadata n1 m1) s ∧
   (record_posted_data n1 d1 ;; record_posted_data n2 d2) s
     = (record_posted_data n2 d2 ;; record_posted_data n1 d1) s ∧
   inputs (task_status (record_input_metadata n1 m1 s).2) !! n2
     = inputs (task_status s) !! n2 ∧
   posted_data (task_status (record_posted_data n1 d1 s).2) !! n2
     = posted_data (task_status s) !! n2).
Proof.
  unfold record_input_metadata, record_posted_data. run.
  unfold set_inputs, set_posted_data. simpl.
  split_and!; try done.
  - by rewrite insert_insert_eq.
  - by rewrite insert_insert_eq.
  - apply lookup_insert_eq.
  - apply lookup_insert_eq.
  - intros Hne. split_and!.
    + by rewrite (insert_insert_ne _ n1 n2).
    + by rewrite (insert_insert_ne _ n1 n2).
    + by rewrite lookup_insert_ne.
    + by rewrite lookup_insert_ne.
Qed.

(** A call on the API client, after the client was fetched. *)
Lemma api_call_run (ev : Event) (w : World) :
  let '(r, w') := (_get_api_client ;; call ev) w in
  ticks w' = ticks w ∧
  if api_call_returns w
  then r = Ok tt ∧ trace w' = trace w ++ [ev]
  else ∃ e, r = Raise e.
Proof.
  unfold api_call_returns, _get_api_client, make_api_client, set_api_client,
    call, fallible.
  rewrite bind_run. destruct (api_client w); simpl.
  - destruct (raises (calls w)); simpl; eauto.
  - rewrite bind_run. destruct (raises (calls w)); simpl; [eauto|].
    unfold mret, M_ret. simpl. rewrite app_nil_r.
    destruct (raises (S (calls w))); simpl; eauto.
Qed.

(** X8: [post_job_metadata] posts the metadata under the job id of the
    description and then logs a message.  It returns exactly when the API
    call returns; when the call raises, or the client cannot be made, no
    message is logged and the status is as it was. *)
Theorem post_job_metadata_run (metadata : Value) (task_config : TaskConfig.t)
    (s : Store) :
  let '(r, s') := post_job_metadata metadata task_config s in
  if api_call_returns (world s)
  then
    r = Ok tt ∧
    task_status s' =
      set_messages
        (messages (task_status s) ++
           stamped (ticks (world s)) ["Job metadata posted"])
        (task_status s) ∧
    trace (world s') =
      trace (world s) ++
        [PostJobMetadata (TaskConfig.job_id task_config) metadata]
  else
    (∃ e, r = Raise e) ∧ task_status s' = task_status s ∧
    ticks (world s') = ticks (world s).
Proof.
  unfold post_job_metadata, post_job_metadata_api.
  rewrite bind_run. unfold in_world at 1.
  pose proof (api_call_run
    (PostJobMetadata (TaskConfig.job_id task_config) metadata) (world s))
    as Hrun.
  destruct ((_get_api_client ;; call _) (world s)) as [r w'].
  destruct Hrun as [Hticks Hrun].
  destruct (api_call_returns (world s)).
  - destruct Hrun as [-> Htrace].
    rewrite bind_run, add_message_more. run.
    split_and!; try done.
    + by rewrite Hticks.
    + by rewrite app_nil_r.
  - destruct Hrun as [e ->]. simpl. eauto.
Qed.

Lemma api_upload_run (job_id output_path : string) (w : World) :
  let '(r, w') :=
    (_get_api_client ;; upload_job_output_as_data job_id output_path) w in
  ticks w' = ticks w ∧
  if api_call_returns w
  then r = Ok (upload_data_id job_id output_path) ∧
       trace w' = trace w ++ [UploadJobOutputAsData job_id output_path]
  else ∃ e, r = Raise e.
Proof.
  unfold api_call_returns, _get_api_client, make_api_client, set_api_client,
    upload_job_output_as_data, call, fallible.
  run. destruct (api_client w); simpl; run.
  - destruct (raises (calls w)); simpl; eauto.
  - destruct (raises (calls w)); simpl; [eauto|]. rewrite app_nil_r.
    destruct (raises (S (calls w))); simpl; eauto.
Qed.

(** X9: [upload_output_as_data] uploads the output under the job id of the
    description, records the data id the platform returned under the name
    of the output, and logs a message.  When the upload raises, or the
    client cannot be made, nothing is recorded and nothing is logged. *)
Theorem upload_output_as_data_run (output_name output_path : string)
    (task_config : TaskConfig.t) (s : Store) :
  let job := TaskConfig.job_id task_config in
  let '(r, s') := upload_output_as_data output_name output_path task_config s in
  if api_call_returns (world s)
  then
    r = Ok tt ∧
    posted_data (task_status s') !! output_name
      = Some (upload_data_id job output_path) ∧
    messages (task_status s') =
      messages (task_status s) ++
        stamped (ticks (world s))
          ["Output '" +:+ output_name +:+ "' published as data"] ∧
    inputs (task_status s') = inputs (task_status s) ∧
    state (task_status s') = state (task_status s) ∧
    trace (world s') =
      trace (world s) ++ [UploadJobOutputAsData job output_path]
  else
    (∃ e, r = Raise e) ∧ task_status s' = task_status s ∧
    ticks (world s') = ticks (world s).
Proof.
  intros job. unfold upload_output_as_data.
  rewrite bind_run. unfold in_world at 1.
  pose proof (api_upload_run job output_path (world s)) as Hrun.
  fold job.
  destruct ((_get_api_client ;; upload_job_output_as_data _ _) (world s))
    as [r w'].
  destruct Hrun as [Hticks Hrun].
  destruct (api_call_returns (world s)).
  - destruct Hrun as [-> Htrace].
    rewrite bind_run. unfold record_posted_data, modify_status at 1.
    rewrite bind_run, add_message_more. run.
    split_and!; try done.
    + apply lookup_insert_eq.
    + by rewrite Hticks.
    + by rewrite app_nil_r.
  - destruct Hrun as [e ->]. simpl. eauto.
Qed.


(** ** Downloads that raise, and parameters without downloads *)

(** A download that raises. *)
Lemma download_raises (path_config : RemotePathConfig)
    (output_dir : option string) (s : Store) :
  raises (calls (world s)) = true →
  in_world (download path_config output_dir) s =
    (Raise (ExternalError (calls (world s))),
     {| task_status := task_status s;
        world := after_calls 0 [Download path_config output_dir] (world s) |}).
Proof.
  intros Hraise. unfold in_world, download, call, fallible. run.
  rewrite Hraise. unfold after_calls. simpl.
  by rewrite Nat.add_0_r, Nat.add_1_r.
Qed.

(** The loop of [download_inputs] up to the first download that raises. *)
Lemma download_inputs_loop_raises (inputs_dir : string)
    (before after : list (string * RemotePathConfig)) (name : string)
    (pc : RemotePathConfig) (acc : gmap string string) (s : Store) :
  (∀ k, calls (world s) ≤ k < calls (world s) + length before →
        raises k = false) →
  raises (calls (world s) + length before) = true →
  for_items (before ++ (name, pc) :: after) acc
    (λ input_paths item,
       let '(name, path_config) := item in
       local_path ← in_world (download path_config (Some inputs_dir));
       let input_paths := <[name := local_path]> input_paths in
       add_message ("Input '" +:+ name +:+ "' downloaded") ;;
       mret input_paths) s =
  (Raise (ExternalError (calls (world s) + length before)),
   {| task_status :=
        with_more_messages
          (stamped (ticks (world s)) (map input_message before.*1))
          (task_status s);
      world :=
        after_calls (length before)
          (map (λ item, Download item.2 (Some inputs_dir)) before ++
             [Download pc (Some inputs_dir)])
          (world s) |}).
Proof.
  revert acc s. induction before as [|[name0 pc0] before IH];
    intros acc s Hok Hraise.
  - simpl in *. rewrite Nat.add_0_r in Hraise.
    rewrite bind_run, bind_run, download_raises by done.
    rewrite Nat.add_0_r. unfold stamped. simpl.
    by rewrite with_more_messages_nil.
  - simpl app. simpl for_items. rewrite bind_run, bind_run.
    rewrite download_run by (apply Hok; simpl; lia).
    rewrite bind_run, add_message_more.
    unfold mret at 1, M_ret at 1.
    rewrite IH.
    + simpl task_status. simpl world.
      rewrite with_more_messages_app, !after_calls_app.
      f_equal.
      * f_equal. f_equal. simpl. lia.
      * f_equal. f_equal.
        change (map input_message ((name0, pc0) :: before).*1)
          with ([input_message name0] ++ map input_message before.*1).
        rewrite stamped_app, !Nat.add_0_r. reflexivity.
    + intros k Hk. apply Hok. simpl in *. lia.
    + simpl in *. rewrite <- Hraise. f_equal. lia.
Qed.

(** X10: [download_inputs] stops at the first download that raises.  The
    exception is its result; the inputs before the failing one have been
    downloaded and have their message in the status, the failing download
    is the last call made, and the inputs after it are not attempted. *)
Theorem download_inputs_stops_at_failure (inputs_dir : string)
    (task_config : TaskConfig.t)
    (before after : list (string * RemotePathConfig)) (name : string)
    (pc : RemotePathConfig) (s : Store)
    (Hinputs : TaskConfig.inputs task_config = before ++ (name, pc) :: after)
    (Hok : ∀ k, calls (world s) ≤ k < calls (world s) + length before →
                raises k = false)
    (Hraise : raises (calls (world s) + length before) = true) :
  let '(r, s') := download_inputs inputs_dir task_config s in
  r = Raise (ExternalError (calls (world s) + length before)) ∧
  task_status s' =
    set_messages
      (messages (task_status s) ++
         stamped (ticks (world s)) (map input_message before.*1))
      (task_status s) ∧
  trace (world s') =
    trace (world s) ++
      map (λ item, Download item.2 (Some inputs_dir)) before ++
      [Download pc (Some inputs_dir)].
Proof.
  unfold download_inputs. rewrite Hinputs.
  rewrite download_inputs_loop_raises by done. by split_and!.
Qed.

(** X11: when no parameter of the description is a location spec,
    [parse_parameters] returns the parameters as they are without touching
    the store: it calls no collaborator, so it cannot raise, and it needs
    no data directory. *)
Theorem parse_parameters_literals (data_params_dir : option string)
    (task_config : TaskConfig.t) (s : Store)
    (Hlit : ∀ name val, (name, val) ∈ TaskConfig.parameters task_config →
              is_path_config_dict val = false) :
  parse_parameters data_params_dir task_config s =
    (Ok (assign_all (TaskConfig.parameters task_config) ∅), s).
Proof.
  unfold parse_parameters.
  generalize (∅ : gmap string Value).
  induction (TaskConfig.parameters task_config) as [|[name val] items IH];
    intros acc.
  - done.
  - simpl for_items. rewrite bind_run.
    rewrite (Hlit name val) by apply list_elem_of_here.
    unfold mret at 1, M_ret at 1. rewrite IH; [done|].
    intros n v Hin. apply (Hlit n v). by apply list_elem_of_further.
Qed.


(** ** The job id of an epic failure *)

(** The final component of a path holds no slash. *)
Lemma basename_no_slash (p : string) : contains "/" (basename p) = false.
Proof.
  unfold basename. induction p as [|d p IH]; [done|].
  rewrite rsplit_slash_cons.
  destruct (rsplit_slash p) as [head tail]. simpl in *.
  destruct head as [|e head]; simpl; [|done].
  unfold is_slash. destruct (bool_decide (d = "/"%char)) eqn:Hd; simpl; [done|].
  by rewrite Hd.
Qed.

(** X12: whatever the URL and whatever the collaborators do,
    [fail_epically] reads no clock and makes at most one call, which is
    [update_job_state] with the state FAILED and the failure type PLATFORM
    under a job id that holds no slash. *)
Theorem fail_epically_only_reports (task_config_url : string) (w : World) :
  let '(r, w') := fail_epically task_config_url w in
  ticks w' = ticks w ∧
  ∃ evs : list Event,
    trace w' = trace w ++ evs ∧
    (evs = [] ∨
     ∃ job_id : string,
       evs = [UpdateJobState job_id FAILED (Some PLATFORM)] ∧
       contains "/" job_id = false).
Proof.
  unfold fail_epically, job_id_of_url. rewrite bind_run. unfold lift_result.
  destruct (urlparse_path task_config_url) as [path|e].
  - set (job_id := basename (dirname (unquote path))).
    unfold try_except, _get_api_client, update_job_state, make_api_client,
      set_api_client, call, fallible.
    run.
    assert (Hjob : contains "/" job_id = false) by apply basename_no_slash.
    destruct (api_client w); simpl; run.
    + destruct (raises (calls w)); simpl; (split; [done|]);
        eexists; (split; [reflexivity|]); right; eauto.
    + destruct (raises (calls w)); simpl.
      * split; [done|]. exists []. split; [done|]. by left.
      * destruct (raises (S (calls w))); simpl; (split; [done|]);
          eexists; (split; [by rewrite app_nil_r|]); right; eauto.
  - simpl. split; [done|]. exists []. split; [by rewrite app_nil_r|by left].
Qed.

(** The job id of a path with a single component is empty. *)
Lemma job_id_of_short_path (last : string) :
  contains "/" last = false →
  basename (dirname last) = "" ∧ basename (dirname ("/" +:+ last)) = "".
Proof.
  intros Hlast. unfold dirname. split.
  - by rewrite (rsplit_slash_plain last Hlast).
  - change ("/" +:+ last) with ("" +:+ "/" +:+ last).
    by rewrite (rsplit_slash_sep "" last Hlast).
Qed.

(** X13: when the path of the URL has a single component, as in
    [https://host/status.json], there is no parent segment: the job id
    [fail_epically] computes is the empty string, and the failure is
    reported under that empty job id. *)
Theorem fail_epically_short_path (task_config_url last : string) (w : World)
    (Hpath : urlparse_path task_config_url = Ok last ∨
             urlparse_path task_config_url = Ok ("/" +:+ last))
    (Hlast : contains "/" last = false)
    (Hplain : contains "%" last = false) :
  job_id_of_url task_config_url = Ok "" ∧
  let '(r, w') := fail_epically task_config_url w in
  r = Ok tt ∧
  trace w' =
    trace w ++
      (if api_client w || negb (raises (calls w))
       then [UpdateJobState "" FAILED (Some PLATFORM)] else []).
Proof.
  destruct (job_id_of_short_path last Hlast) as [Hj1 Hj2].
  assert (Hjob : job_id_of_url task_config_url = Ok "").
  { unfold job_id_of_url, unquote.
    destruct Hpath as [-> | ->].
    - by rewrite Hplain, Hj1.
    - change (contains "%" ("/" +:+ last)) with (contains "%" last).
      by rewrite Hplain, Hj2. }
  split; [done|].
  unfold fail_epically. rewrite Hjob, bind_run. unfold lift_result.
  by destruct (epic_report_run "" w) as (w' & -> & ->).
Qed.

(** ** Metadata of videos *)

(** X14: [TaskManager.record_input_metadata] with a video path records the
    metadata computed for the video and ignores the [metadata] argument;
    when computing it raises, nothing is recorded.  Without a video path it
    records the [metadata] argument as it is, an absent one too, and
    touches nothing but the dict of inputs. *)
Theorem manager_record_input_metadata (self : TaskConfig.t) (name : string)
    (video_path : option string) (metadata : Value) (s : Store) :
  let '(r, s') :=
    TaskManager.record_input_metadata self name video_path metadata s in
  match video_path with
  | Some (String c p) =>
      if raises (calls (world s))
      then r = Raise (ExternalError (calls (world s))) ∧
           task_status s' = task_status s
      else r = Ok tt ∧
           task_status s' =
             set_inputs
               (<[name := serialize (video_metadata (String c p))]>
                  (inputs (task_status s)))
               (task_status s)
  | _ =>
      r = Ok tt ∧ world s' = world s ∧
      task_status s' =
        set_inputs (<[name := metadata]> (inputs (task_status s)))
          (task_status s)
  end.
Proof.
  unfold TaskManager.record_input_metadata, record_input_metadata,
    get_metadata_for_video, fallible.
  destruct video_path as [[|c p]|]; run; try done.
  destruct (raises (calls (world s))); simpl; done.
Qed.

(** X15: [post_job_metadata_for_video] computes the metadata of the video
    before it turns to the platform: when that raises, no call is made and
    no message is logged.  Otherwise it posts, under the job id of the
    description, a dict with the three keys [frame_count],
    [duration_seconds] and [size_bytes] taken from the metadata, and logs a
    message when the call returned. *)
Theorem post_job_metadata_for_video_run (video_path : string)
    (task_config : TaskConfig.t) (s : Store) :
  let vm := video_metadata video_path in
  let w1 := {| api_client := api_client (world s);
               ticks := ticks (world s);
               calls := S (calls (world s));
               trace := trace (world s) |} in
  let '(r, s') := post_job_metadata_for_video video_path task_config s in
  if raises (calls (world s))
  then
    r = Raise (ExternalError (calls (world s))) ∧
    task_status s' = task_status s ∧ trace (world s') = trace (world s)
  else if api_call_returns w1
  then
    r = Ok tt ∧
    messages (task_status s') =
      messages (task_status s) ++
        stamped (ticks (world s)) ["Job metadata posted"] ∧
    trace (world s') =
      trace (world s) ++
        [PostJobMetadata (TaskConfig.job_id task_config)
           (VDict [("frame_count", total_frame_count vm);
                   ("duration_seconds", duration vm);
                   ("size_bytes", size_bytes vm)])]
  else
    (∃ e, r = Raise e) ∧ task_status s' = task_status s.
Proof.
  intros vm w1.
  unfold post_job_metadata_for_video, get_metadata_for_video, fallible.
  rewrite bind_run. unfold in_world at 1. rewrite bind_run.
  destruct (raises (calls (world s))); simpl.
  { split_and!; try done. by rewrite app_nil_r. }
  rewrite app_nil_r. fold w1. fold vm.
  unfold post_job_metadata, post_job_metadata_api.
  rewrite bind_run. unfold in_world at 1. simpl world.
  set (ev := PostJobMetadata _ _).
  pose proof (api_call_run ev w1) as Hrun.
  destruct ((_get_api_client ;; call ev) w1) as [r w'].
  destruct Hrun as [Hticks Hrun].
  destruct (api_call_returns w1).
  - destruct Hrun as [-> Htrace].
    rewrite bind_run, add_message_more. run.
    split_and!; try done.
    + by rewrite Hticks.
    + by rewrite app_nil_r.
  - destruct Hrun as [e ->]. simpl. eauto.
Qed.

End Coverage.

(** * Runs in the reference environment *)

#[local] Existing Instances Demo.reliable_env Demo.ser Demo.urllib.

Lemma demo_reliable (w : World) : reliable w.
Proof. intros k _. reflexivity. Qed.

Lemma second_stamp_mono (a b : nat) :
  a ≤ b → b ≤ 9 → String.leb (Demo.second_stamp a) (Demo.second_stamp b) = true.
Proof.
  intros Hab Hb.
  do 10 (destruct b as [|b];
         [do 10 (destruct a as [|a]; [reflexivity || lia|]); lia|]).
  lia.
Qed.

(** The reference clock never goes back. *)
Lemma stamp_mono (i j : nat) :
  i ≤ j → Demo.not_before (Demo.stamp j) (Demo.stamp i).
Proof.
  intros Hij. unfold Demo.not_before, Demo.stamp.
  apply second_stamp_mono; lia.
Qed.

(** [start] and [complete] on the status of the reference description. *)
Lemma start_then_complete_witness :
  (∀ i j : nat, i ≤ j → Demo.not_before (clock j) (clock i)) ∧
  ∃ m1 m2 : TaskStatusMessage,
    let '(r, s) := (start start_msg ;; complete complete_msg) Demo.store0 in
    r = Ok tt ∧
    state (task_status s) = COMPLETE ∧
    messages (task_status s) = [m1; m2] ∧
    message m1 = start_msg ∧ message m2 = complete_msg ∧
    start_time (task_status s) = Some (time m1) ∧
    complete_time (task_status s) = Some (time m2) ∧
    Demo.not_before (time m2) (time m1).
Proof.
  split; [exact stamp_mono|].
  exact (start_then_complete (H := Demo.reliable_env) Demo.config Demo.world0
           start_msg complete_msg Demo.not_before stamp_mono).
Defined.

(** [publish] on the status of the reference description after it failed. *)
Lemma publish_two_effects_witness :
  let s := (fail ANALYTIC fail_msg Demo.store0).2 in
  _publish_callback (task_status s)
    = _publish_callback (TaskStatus__init__ Demo.config) ∧
  reliable (world s) ∧
  trace (world (publish s).2) =
    [UploadBytes "FAILED" (Demo.loc "https://s/job-123/status.json")
       "application/json";
     UpdateJobState "job-123" FAILED (Some ANALYTIC)].
Proof.
  intros s.
  split; [reflexivity|]. split; [apply demo_reliable|].
  pose proof (publish_two_effects Demo.config s eq_refl (demo_reliable _))
    as Hp.
  destruct (publish s) as [r s'].
  destruct Hp as (_ & _ & Htrace). simpl. rewrite Htrace. reflexivity.
Defined.

(** The two inputs of the reference description, downloaded to [/tmp/in]. *)
Lemma download_inputs_correct_witness :
  NoDup (TaskConfig.inputs Demo.config).*1 ∧
  reliable (world Demo.store0) ∧
  ∃ (input_paths : gmap string string) (s' : Store),
    download_inputs "/tmp/in" Demo.config Demo.store0 = (Ok input_paths, s') ∧
    input_paths !! "video" = Some "/tmp/in/a.mp4" ∧
    input_paths !! "mask" = Some "/tmp/in/m.png" ∧
    message <$> messages (task_status s') =
      ["Input 'video' downloaded"; "Input 'mask' downloaded"].
Proof.
  assert (Hkeys : NoDup (TaskConfig.inputs Demo.config).*1)
    by (apply (bool_decide_unpack _); reflexivity).
  split; [exact Hkeys|]. split; [apply demo_reliable|].
  destruct (download_inputs_correct "/tmp/in" Demo.config Demo.store0 Hkeys
              (demo_reliable _))
    as (input_paths & s' & Hrun & _ & Hlook & Hst & _ & _).
  exists input_paths, s'. split; [exact Hrun|].
  split; [|split].
  - apply (Hlook "video" (Demo.loc "https://s/in/a.mp4")).
    apply list_elem_of_here.
  - apply (Hlook "mask" (Demo.loc "https://s/in/m.png")).
    apply list_elem_of_further, list_elem_of_here.
  - rewrite Hst. reflexivity.
Defined.

(** The two parameters of the reference description: a literal and a
    location spec. *)
Lemma parse_parameters_correct_witness :
  NoDup (TaskConfig.parameters Demo.config).*1 ∧
  reliable (world Demo.store0) ∧
  ∃ (parameters : gmap string Value) (s' : Store),
    parse_parameters (Some "/tmp/data") Demo.config Demo.store0
      = (Ok parameters, s') ∧
    parameters !! "a" = Some (VNum 5) ∧
    parameters !! "b" = Some (VStr "/tmp/data/b.json") ∧
    message <$> messages (task_status s') = ["Parameter 'b' downloaded"].
Proof.
  assert (Hkeys : NoDup (TaskConfig.parameters Demo.config).*1)
    by (apply (bool_decide_unpack _); reflexivity).
  split; [exact Hkeys|]. split; [apply demo_reliable|].
  destruct (parse_parameters_correct (Some "/tmp/data") Demo.config
              Demo.store0 Hkeys (demo_reliable _))
    as (parameters & s' & Hrun & _ & Hdata & Hlit & Hst & _).
  exists parameters, s'. split; [exact Hrun|].
  split; [|split].
  - apply (Hlit "a" (VNum 5)); [apply list_elem_of_here|reflexivity].
  - apply (Hdata "b" (VDict [("signed-url", VStr "https://s/p/b.json")]));
      [apply list_elem_of_further, list_elem_of_here|reflexivity].
  - rewrite Hst. reflexivity.
Defined.



(** Graceful failure when the write of the status document raises: the
    logfile is uploaded all the same, and no exception comes out. *)
Example fail_gracefully_publish_raises :
  let '(r, s) :=
    fail_gracefully (H := Demo.env [0]) ANALYTIC Demo.config
      (Some "/tmp/log") Demo.store0 in
  r = Ok tt ∧
  trace (world s) =
    [UploadBytes "FAILED" (Demo.loc "https://s/job-123/status.json")
       "application/json";
     Upload "/tmp/log" (Demo.loc "https://s/job-123/log.txt")].
Proof. split; reflexivity. Qed.

(** Completion when the upload of the logfile raises: the exception is the
    result. *)
Example complete_task_upload_raises :
  (complete_task (H := Demo.env [3]) Demo.config (Some "/tmp/log")
     Demo.store0).1
  = Raise (ExternalError 3).
Proof. reflexivity. Qed.

(** ** Runs for the further properties *)

(** The write of the status document raises. *)
Lemma publish_write_raises_witness :
  raises (Env := Demo.env [0]) (calls (world Demo.store0)) = true ∧
  publish (H := Demo.env [0]) Demo.store0 =
    (Raise (ExternalError 0),
     {| task_status := task_status Demo.store0;
        world :=
          {| api_client := false; ticks := 0; calls := 1;
             trace :=
               [UploadBytes "SCHEDULED"
                  (Demo.loc "https://s/job-123/status.json")
                  "application/json"] |} |}).
Proof.
  split; [reflexivity|].
  exact (publish_write_raises (H := Demo.env [0]) Demo.store0 eq_refl).
Defined.

(** Start and completion of the reference task, with a logfile. *)
Lemma start_then_complete_task_witness :
  reliable (world Demo.store0) ∧
  ∃ s' : Store,
    (start_task ;; complete_task Demo.config (Some "/tmp/log")) Demo.store0
      = (Ok tt, s') ∧
    state (task_status s') = COMPLETE ∧
    calls (world s') = 6.
Proof.
  split; [apply demo_reliable|].
  destruct (start_then_complete_task Demo.config (Some "/tmp/log")
              Demo.store0 (demo_reliable _))
    as (s' & Hrun & Hstate & _ & _ & _ & _ & Hcalls).
  exists s'. split; [exact Hrun|]. split; [exact Hstate|exact Hcalls].
Defined.

(** Metadata recorded for one input leaves the other input alone. *)
Lemma records_are_dict_assignments_witness :
  "video" ≠ "mask" ∧
  inputs (task_status
            (record_input_metadata "video" (VNum 1) Demo.store0).2) !! "mask"
  = inputs (task_status Demo.store0) !! "mask".
Proof.
  assert (Hne : "video" ≠ "mask") by discriminate.
  split; [exact Hne|].
  destruct (records_are_dict_assignments "video" "mask" (VNum 1) (VNum 2)
              "id-1" "id-2" Demo.store0) as (_ & _ & _ & _ & Hother).
  destruct (Hother Hne) as (_ & _ & Hlookup & _). exact Hlookup.
Defined.

(** A failure followed by a completion. *)
Lemma run_transitions_unguarded_witness :
  [Fail ANALYTIC "boom"; Complete "done"]
    = [Fail ANALYTIC "boom"] ++ [Complete "done"] ∧
  let s' :=
    (run_transitions [Fail ANALYTIC "boom"; Complete "done"] Demo.store0).2 in
  state (task_status s') = COMPLETE ∧
  failure_type (task_status s') = ANALYTIC ∧
  complete_time (task_status s') = Some "2019-01-01T00:00:01Z".
Proof.
  split; [reflexivity|].
  destruct (run_transitions_unguarded
              [Fail ANALYTIC "boom"; Complete "done"] Demo.store0)
    as (_ & Hstate & Hft & _ & _ & Hlast).
  split; [exact Hstate|]. split; [exact Hft|].
  exact (Hlast [Fail ANALYTIC "boom"] (Complete "done") eq_refl).
Defined.

(** The second of the two downloads raises. *)
Lemma download_inputs_stops_at_failure_witness :
  TaskConfig.inputs Demo.config
    = [("video", Demo.loc "https://s/in/a.mp4")] ++
      ("mask", Demo.loc "https://s/in/m.png") :: [] ∧
  raises (Env := Demo.env [1]) 1 = true ∧
  let '(r, s') :=
    download_inputs (H := Demo.env [1]) "/tmp/in" Demo.config Demo.store0 in
  r = Raise (ExternalError 1) ∧
  message <$> messages (task_status s') = ["Input 'video' downloaded"] ∧
  trace (world s') =
    [Download (Demo.loc "https://s/in/a.mp4") (Some "/tmp/in");
     Download (Demo.loc "https://s/in/m.png") (Some "/tmp/in")].
Proof.
  split; [reflexivity|]. split; [reflexivity|].
  assert (Hok : ∀ k, calls (world Demo.store0) ≤ k
                       < calls (world Demo.store0) + 1 →
                raises (Env := Demo.env [1]) k = false).
  { intros k Hk. simpl in Hk. destruct k as [|k]; [reflexivity|lia]. }
  pose proof (download_inputs_stops_at_failure (H := Demo.env [1]) "/tmp/in"
                Demo.config [("video", Demo.loc "https://s/in/a.mp4")] []
                "mask" (Demo.loc "https://s/in/m.png") Demo.store0
                eq_refl Hok eq_refl) as Hrun.
  destruct (download_inputs (H := Demo.env [1]) "/tmp/in" Demo.config
              Demo.store0) as [r s'].
  destruct Hrun as (Hr & Hst & Htrace).
  split; [exact Hr|]. split; [rewrite Hst; reflexivity|exact Htrace].
Defined.

(** Literal parameters, with collaborators that raise and no directory. *)
Lemma parse_parameters_literals_witness :
  (∀ name val,
     (name, val) ∈ TaskConfig.parameters Samples.literal_config →
     is_path_config_dict (Env := Demo.env [0; 1]) val = false) ∧
  parse_parameters (H := Demo.env [0; 1]) None Samples.literal_config
    Samples.literal_store
  = (Ok (<["threshold" := VStr "0.5"]> (<["a" := VNum 5]> ∅)),
     Samples.literal_store).
Proof.
  assert (Hlit : ∀ name val,
            (name, val) ∈ TaskConfig.parameters Samples.literal_config →
            is_path_config_dict (Env := Demo.env [0; 1]) val = false).
  { intros name val Hin. simpl in Hin.
    apply elem_of_cons in Hin as [Heq|Hin]; [by injection Heq as -> ->|].
    apply elem_of_cons in Hin as [Heq|Hin]; [by injection Heq as -> ->|].
    by apply elem_of_nil in Hin. }
  split; [exact Hlit|].
  exact (parse_parameters_literals (H := Demo.env [0; 1]) None
           Samples.literal_config Samples.literal_store Hlit).
Defined.

(** A URL whose path has one component. *)
Lemma fail_epically_short_path_witness :
  urlparse_path "https://host/status.json" = Ok ("/" +:+ "status.json") ∧
  contains "/" "status.json" = false ∧
  contains "%" "status.json" = false ∧
  fail_epically "https://host/status.json" Demo.world0 =
    (Ok tt,
     {| api_client := true; ticks := 0; calls := 2;
        trace := [UpdateJobState "" FAILED (Some PLATFORM)] |}).
Proof.
  split; [reflexivity|]. split; [reflexivity|]. split; [reflexivity|].
  assert (Hpath : urlparse_path "https://host/status.json" = Ok "status.json"
                  ∨ urlparse_path "https://host/status.json"
                    = Ok ("/" +:+ "status.json"))
    by (right; reflexivity).
  destruct (fail_epically_short_path "https://host/status.json" "status.json"
              Demo.world0 Hpath eq_refl eq_refl) as [_ Hrun].
  destruct (fail_epically "https://host/status.json" Demo.world0)
    as [r w'] eqn:Heq.
  destruct Hrun as [Hr _]. rewrite <- Heq. reflexivity.
Defined.
